(** * Order Barcode App: the order-fulfilment state machine of [main.js]

    A shallow embedding of the logic of [src/main.js]: the global [state]
    object, the order objects it shares with the database, the two
    [localStorage] entries, the screens and their listeners, the Quagga
    detection callbacks, and the CSV import.  Rendering is reduced to the
    screen that is shown, since the screen fixes which listeners exist:
    [clearApp], [updateProgress], [updateCameraWarning] and [canUseCamera]
    only touch or describe the page and have no counterpart here, and the
    asset cache of [service-worker.js] takes no part in order fulfilment. *)

From stdpp Require Import gmap list strings sorting.

Set Default Proof Using "Type".

(** ** JavaScript strings

    A JavaScript string is a sequence of UTF-16 code units.  [lit] embeds
    the ASCII literals of the source. *)

Abbreviation jsstring := (list N).

Definition lit (s : string) : jsstring :=
  Ascii.N_of_ascii <$> String.list_ascii_of_string s.
Arguments lit s%_string.

(** [WhiteSpace] and [LineTerminator] of ECMAScript, the code units that
    [String.prototype.trim] strips: TAB, LF, VT, FF, CR, SP, NBSP, U+1680,
    U+2000..U+200A, LS, PS, U+202F, U+205F, U+3000 and U+FEFF. *)
Definition is_white_space (c : N) : bool :=
  bool_decide (c ∈ [9; 10; 11; 12; 13; 32; 160; 5760; 8232; 8233; 8239; 8287;
                    12288; 65279]%N)
  || ((8192 <=? c)%N && (c <=? 8202)%N).

Fixpoint trimStart (s : jsstring) : jsstring :=
  match s with
  | c :: s' => if is_white_space c then trimStart s' else s
  | [] => []
  end.

Definition trimEnd (s : jsstring) : jsstring := reverse (trimStart (reverse s)).

Definition trim (s : jsstring) : jsstring := trimEnd (trimStart s).

(** Truthiness of a string: only the empty string is falsy. *)
Definition truthy (s : jsstring) : bool :=
  match s with [] => false | _ => true end.

(** [Array.prototype.includes] on an array of strings. *)
Definition includes (l : list jsstring) (x : jsstring) : bool :=
  bool_decide (x ∈ l).

(** [String.prototype.includes]: [p] occurs in [s] as a substring. *)
Fixpoint starts_with (p s : jsstring) : bool :=
  match p, s with
  | [], _ => true
  | a :: p', b :: s' => bool_decide (a = b) && starts_with p' s'
  | _ :: _, [] => false
  end.

Fixpoint str_includes (s p : jsstring) : bool :=
  starts_with p s ||
  match s with
  | [] => false
  | _ :: s' => str_includes s' p
  end.

(** ** Data model *)

(** An order object.  The sample order has no [customer], [project] or
    [supplyDate] property; imported orders have all three.  [packedAt] and
    [packedBy] are [null] until the order is packed. *)
Record Order : Type := mkOrder {
  orderId : jsstring;
  parts : list jsstring;
  customer : option jsstring;
  project : option jsstring;
  supplyDate : option jsstring;
  status : jsstring;
  packedAt : option jsstring;
  packedBy : option jsstring
}.

Global Instance Order_eq_dec : EqDecision Order.
Proof. solve_decision. Defined.

(** Order objects live in a store and are referred to by their address:
    [state.currentOrder] is the very object that [state.db.orders] holds. *)
Abbreviation loc := nat (only parsing).

Record Database : Type := mkDatabase { orders : list loc }.

Global Instance Database_eq_dec : EqDecision Database.
Proof. solve_decision. Defined.

Definition Pending : jsstring := lit "Pending".
Definition Packed : jsstring := lit "Packed".

(** The built-in sample: one order with three parts. *)
Definition sampleOrder : Order :=
  {| orderId := lit "ORDER001";
     parts := [lit "PART001"; lit "PART002"; lit "PART003"];
     customer := None; project := None; supplyDate := None;
     status := Pending; packedAt := None; packedBy := None |}.

(** The screen on display; it determines which buttons can be clicked.
    [Blank] is the page after [clearApp()] and before a card is appended.
    [Summary d] records the [disabled] attribute that [showSummary] gave
    to the mark-packed button. *)
Inductive Screen : Type :=
| Blank
| Login
| Home
| Import
| OrderScan
| PartScan
| Summary (markDisabled : bool)
| DatabaseView.

Global Instance Screen_eq_dec : EqDecision Screen.
Proof. solve_decision. Defined.

(** The callbacks handed to [startScanner]. *)
Inductive Callback : Type :=
| OnOrder   (* (code) => handleOrderDetected(code) *)
| OnPart.   (* (code) => handlePartDetected(code) *)

Global Instance Callback_eq_dec : EqDecision Callback.
Proof. solve_decision. Defined.

(** Blocking notifications shown with [alert]. *)
Inductive Alert : Type :=
| EnterUserName
| SampleLoaded
| DatabaseLoaded
| CsvReadError (message : jsstring)
| EnterOrderNumber
| OrderNotFound (code : jsstring)
| OrderAlreadyPacked
| EnterPartNumber
| DuplicatePart (code : jsstring)
| PartNotInOrder (code : jsstring)
| OrderMarkedPacked.

Global Instance Alert_eq_dec : EqDecision Alert.
Proof. solve_decision. Defined.

(** Lines written to the developer console. *)
Inductive LogLine : Type :=
| WarnParseFailed
| WarnNoCamera
| UncaughtTypeError.

Global Instance LogLine_eq_dec : EqDecision LogLine.
Proof. solve_decision. Defined.

(** The global [state] object together with everything else the handlers
    read or write. *)
Record World : Type := mkWorld {
  user : option jsstring;
  db : Database;
  currentOrder : option loc;
  scannedParts : list jsstring;
  heap : list Order;
  localStorage : gmap jsstring jsstring;
  screen : Screen;
  quaggaActive : bool;
  subscribers : list Callback;
  pendingParses : nat;
  alerts : list Alert;
  console : list LogLine
}.

Definition dbKey : jsstring := lit "barcodeAppDb".
Definition userKey : jsstring := lit "barcodeAppUser".

(** *** Field updates *)

Definition set_user (x : option jsstring) (w : World) : World :=
  mkWorld x (db w) (currentOrder w) (scannedParts w) (heap w) (localStorage w)
    (screen w) (quaggaActive w) (subscribers w) (pendingParses w) (alerts w) (console w).

Definition set_db (x : Database) (w : World) : World :=
  mkWorld (user w) x (currentOrder w) (scannedParts w) (heap w) (localStorage w)
    (screen w) (quaggaActive w) (subscribers w) (pendingParses w) (alerts w) (console w).

Definition set_currentOrder (x : option loc) (w : World) : World :=
  mkWorld (user w) (db w) x (scannedParts w) (heap w) (localStorage w)
    (screen w) (quaggaActive w) (subscribers w) (pendingParses w) (alerts w) (console w).

Definition set_scannedParts (x : list jsstring) (w : World) : World :=
  mkWorld (user w) (db w) (currentOrder w) x (heap w) (localStorage w)
    (screen w) (quaggaActive w) (subscribers w) (pendingParses w) (alerts w) (console w).

Definition set_heap (x : list Order) (w : World) : World :=
  mkWorld (user w) (db w) (currentOrder w) (scannedParts w) x (localStorage w)
    (screen w) (quaggaActive w) (subscribers w) (pendingParses w) (alerts w) (console w).

Definition set_localStorage (x : gmap jsstring jsstring) (w : World) : World :=
  mkWorld (user w) (db w) (currentOrder w) (scannedParts w) (heap w) x
    (screen w) (quaggaActive w) (subscribers w) (pendingParses w) (alerts w) (console w).

Definition set_screen (x : Screen) (w : World) : World :=
  mkWorld (user w) (db w) (currentOrder w) (scannedParts w) (heap w) (localStorage w)
    x (quaggaActive w) (subscribers w) (pendingParses w) (alerts w) (console w).

Definition set_quaggaActive (x : bool) (w : World) : World :=
  mkWorld (user w) (db w) (currentOrder w) (scannedParts w) (heap w) (localStorage w)
    (screen w) x (subscribers w) (pendingParses w) (alerts w) (console w).

Definition set_subscribers (x : list Callback) (w : World) : World :=
  mkWorld (user w) (db w) (currentOrder w) (scannedParts w) (heap w) (localStorage w)
    (screen w) (quaggaActive w) x (pendingParses w) (alerts w) (console w).

Definition set_pendingParses (x : nat) (w : World) : World :=
  mkWorld (user w) (db w) (currentOrder w) (scannedParts w) (heap w) (localStorage w)
    (screen w) (quaggaActive w) (subscribers w) x (alerts w) (console w).

(** [alert(a)]: the newest notification is the head of [alerts]. *)
Definition alert (a : Alert) (w : World) : World :=
  mkWorld (user w) (db w) (currentOrder w) (scannedParts w) (heap w) (localStorage w)
    (screen w) (quaggaActive w) (subscribers w) (pendingParses w) (a :: alerts w) (console w).

Definition log (l : LogLine) (w : World) : World :=
  mkWorld (user w) (db w) (currentOrder w) (scannedParts w) (heap w) (localStorage w)
    (screen w) (quaggaActive w) (subscribers w) (pendingParses w) (alerts w) (l :: console w).

(** *** Reading the shared order objects *)

(** The order object [state.currentOrder] refers to. *)
Definition current (w : World) : option Order :=
  currentOrder w ≫= λ l, heap w !! l.

(** The order objects of [state.db.orders], in array order. *)
Definition db_orders (w : World) : list Order :=
  omap (λ l, heap w !! l) (orders (db w)).

(** [orders.find((o) => o.orderId === orderId)]: the first order of the
    array whose id is [id], with its address. *)
Fixpoint find_order (h : list Order) (id : jsstring) (ls : list loc)
  : option (loc * Order) :=
  match ls with
  | [] => None
  | l :: ls' =>
      match h !! l with
      | Some o => if bool_decide (orderId o = id) then Some (l, o)
                  else find_order h id ls'
      | None => find_order h id ls'
      end
  end.

(** Fresh objects for the orders [os], appended to the store. *)
Definition alloc (os : list Order) (h : list Order) : list loc * list Order :=
  (seq (length h) (length os), h ++ os).

(** [state.db = { orders: os }] with freshly created order objects. *)
Definition install (os : list Order) (w : World) : World :=
  let '(ls, h) := alloc os (heap w) in
  set_db (mkDatabase ls) (set_heap h w).

(** [missing] of [showSummary]: the parts of the current order that were
    not scanned, duplicates kept. *)
Definition missingParts (w : World) : list jsstring :=
  match current w with
  | Some o => filter (λ p, p ∉ scannedParts w) (parts o)
  | None => []
  end.

(** ** CSV import: from parsed rows to orders *)

(** A parsed row: the own properties of the row object in the order
    [Object.keys] lists them, header name and cell text.  PapaParse (with
    [header: true] and no dynamic typing) delivers string cells, on which
    [toString()] is the identity. *)
Definition Row : Type := list (jsstring * jsstring).

(** [row[name]]; [None] is [undefined]. *)
Definition prop (row : Row) (name : jsstring) : option jsstring :=
  snd <$> List.find (λ kv, bool_decide (kv.1 = name)) row.

(** [row[key]] for a key that may be [undefined]: the property name is
    then the string "undefined". *)
Definition get (row : Row) (key : option jsstring) : option jsstring :=
  prop row (default (lit "undefined") key).

(** Truthiness of a cell: [undefined] and the empty string are falsy. *)
Definition is_truthy (v : option jsstring) : bool :=
  match v with
  | Some (_ :: _) => true
  | _ => false
  end.

(** [if (v) v = v.toString().trim()] *)
Definition trim_if_truthy (v : option jsstring) : option jsstring :=
  if is_truthy v then trim <$> v else v.

(** [row[key] ? row[key].toString().trim() : ''] *)
Definition trimmed_or_empty (v : option jsstring) : jsstring :=
  if is_truthy v then trim (default [] v) else [].

(** The names every plain object inherits from [Object.prototype]; a
    lookup of one of them on [ordersMap] yields a function (or, for
    [__proto__], the prototype object), which is truthy and has no
    [parts]. *)
Definition Object_prototype_names : list jsstring :=
  [lit "constructor"; lit "hasOwnProperty"; lit "isPrototypeOf";
   lit "propertyIsEnumerable"; lit "toLocaleString"; lit "toString";
   lit "valueOf"; lit "__proto__"; lit "__defineGetter__";
   lit "__defineSetter__"; lit "__lookupGetter__"; lit "__lookupSetter__"].

Definition inherited (name : jsstring) : bool :=
  bool_decide (name ∈ Object_prototype_names).

(** [ordersMap]: its own properties in insertion order. *)
Definition OrdersMap : Type := list (jsstring * Order).

Definition own (m : OrdersMap) (name : jsstring) : bool :=
  bool_decide (name ∈ m.*1).

(** [ordersMap[orderId].parts.push(partUid)] *)
Definition push_part (id part : jsstring) (m : OrdersMap) : OrdersMap :=
  (λ kv : jsstring * Order,
     if bool_decide (kv.1 = id)
     then (kv.1, mkOrder (orderId kv.2) (parts kv.2 ++ [part]) (customer kv.2)
                   (project kv.2) (supplyDate kv.2) (status kv.2)
                   (packedAt kv.2) (packedBy kv.2))
     else kv) <$> m.

(** An array index: the canonical decimal string of an integer between 0
    and 2^32 - 2.  [Object.values] lists such property names first, in
    ascending numeric order, and the other names after them in insertion
    order. *)
Definition is_digit (c : N) : bool := (48 <=? c)%N && (c <=? 57)%N.

Definition decimal (s : jsstring) : N :=
  foldl (λ acc c, acc * 10 + (c - 48))%N 0%N s.

Definition array_index (s : jsstring) : option N :=
  match s with
  | [] => None
  | [48%N] => Some 0%N
  | 48%N :: _ => None
  | _ => if forallb is_digit s && (decimal s <=? 4294967294)%N
         then Some (decimal s) else None
  end.

Fixpoint insert_by_index (x : N * Order) (l : list (N * Order)) : list (N * Order) :=
  match l with
  | [] => [x]
  | y :: l' => if (x.1 <=? y.1)%N then x :: l else y :: insert_by_index x l'
  end.

Definition Object_values (m : OrdersMap) : list Order :=
  let indexed := omap (λ kv : jsstring * Order, (λ n, (n, kv.2)) <$> array_index kv.1) m in
  let named := filter (λ kv : jsstring * Order, array_index kv.1 = None) m in
  (foldr insert_by_index [] indexed).*2 ++ named.*2.

Section ImportNormalizer.

(** [String.prototype.toLowerCase], a function of the platform. *)
Variable toLowerCase : jsstring → jsstring.

(** [findKey(patterns)]: the first header of the first row whose lower
    case form contains one of the patterns. *)
Definition findKey (keys : list jsstring) (patterns : list jsstring)
  : option jsstring :=
  List.find (λ k, existsb (λ p, str_includes (toLowerCase k) p) patterns) keys.

Record Columns : Type := mkColumns {
  orderKey : option jsstring;
  partKey : option jsstring;
  customerKey : option jsstring;
  projectKey : option jsstring;
  dateKey : option jsstring
}.

Definition columns (data : list Row) : Columns :=
  let firstRow := default [] (head data) in
  let keys := firstRow.*1 in
  {| orderKey := findKey keys [lit "order"; [1502; 1505; 1508; 1512; 32; 1492; 1494; 1502; 1504; 1492]%N];
     partKey := findKey keys [lit "partid"; lit "part_id"; lit "part";
                              [1502; 1505; 1508; 1512; 32; 1495; 1500; 1511]%N];
     customerKey := findKey keys [lit "customer"; [1500; 1511; 1493; 1495]%N];
     projectKey := findKey keys [lit "project"; [1508; 1512; 1493; 1497; 1511; 1496]%N];
     dateKey := findKey keys [lit "date"; [1514; 1488; 1512; 1497; 1498]%N] |}.

(** The order id and part id of a row, or [None] when the row is
    skipped ([if (!orderId || !partUid) return]). *)
Definition resolve (cols : Columns) (row : Row) : option (jsstring * jsstring) :=
  let orderId0 := get row (orderKey cols) in
  let partUid0 := get row (partKey cols) in
  let rowKeys := row.*1 in
  let fallback := negb (is_truthy orderId0) || negb (is_truthy partUid0) in
  let orderId1 :=
    if fallback && negb (is_truthy orderId0) && bool_decide (1 ≤ length rowKeys)
    then rowKeys !! 0 ≫= prop row else orderId0 in
  let partUid1 :=
    if fallback && negb (is_truthy partUid0) && bool_decide (2 ≤ length rowKeys)
    then rowKeys !! 1 ≫= prop row else partUid0 in
  let orderId2 := trim_if_truthy orderId1 in
  let partUid2 := trim_if_truthy partUid1 in
  if negb (is_truthy orderId2) || negb (is_truthy partUid2) then None
  else Some (default [] orderId2, default [] partUid2).

Definition new_order (cols : Columns) (row : Row) (id : jsstring) : Order :=
  {| orderId := id;
     parts := [];
     customer := Some (trimmed_or_empty (get row (customerKey cols)));
     project := Some (trimmed_or_empty (get row (projectKey cols)));
     supplyDate := Some (trimmed_or_empty (get row (dateKey cols)));
     status := Pending; packedAt := None; packedBy := None |}.

(** The body of [data.forEach]; [None] is the [TypeError] raised by
    [ordersMap[orderId].parts.push] when [orderId] names an inherited
    property. *)
Definition add_row (cols : Columns) (row : Row) (m : OrdersMap) : option OrdersMap :=
  match resolve cols row with
  | None => Some m
  | Some (id, part) =>
      if own m id then Some (push_part id part m)
      else if inherited id then None
      else Some (push_part id part (m ++ [(id, new_order cols row id)]))
  end.

Fixpoint add_rows (cols : Columns) (data : list Row) (m : OrdersMap)
  : option OrdersMap :=
  match data with
  | [] => Some m
  | row :: data' => add_row cols row m ≫= add_rows cols data'
  end.

(** The orders computed by the [complete] callback from [results.data]. *)
Definition normalize (data : list Row) : option (list Order) :=
  Object_values <$> add_rows (columns data) data [].

End ImportNormalizer.

(** Lower case of the ASCII letters, the platform's [toLowerCase] on
    strings of ASCII code units. *)
Definition ascii_lower (s : jsstring) : jsstring :=
  (λ c, if (65 <=? c)%N && (c <=? 90)%N then (c + 32)%N else c) <$> s.

(** ** The application *)

(** The platform, as the script finds it:
    - [JSON_parse s] is [JSON.parse(s)] for stored text that describes a
      database ([{orders: [...]}]); [None] is a thrown [SyntaxError];
    - [JSON_stringify os] is [JSON.stringify] of a database holding the
      orders [os];
    - [toLowerCase] is [String.prototype.toLowerCase];
    - [cameraAvailable] is [navigator.mediaDevices] being present and
      [Quagga] being defined. *)
Class Platform : Type := mkPlatform {
  JSON_parse : jsstring → option (list Order);
  JSON_stringify : list Order → jsstring;
  toLowerCase : jsstring → jsstring;
  cameraAvailable : bool
}.

Section App.

Context {P : Platform}.

(** *** Persistence *)

Definition saveDatabase (w : World) : World :=
  set_localStorage (<[dbKey := JSON_stringify (db_orders w)]> (localStorage w)) w.

Definition loadDatabase (w : World) : World :=
  match localStorage w !! dbKey with
  | Some ((_ :: _) as dbStr) =>
      match JSON_parse dbStr with
      | Some os => install os w
      | None => set_db (mkDatabase []) (log WarnParseFailed w)
      end
  | _ => saveDatabase (install [sampleOrder] w)
  end.

(** *** Scanner *)

(** [startScanner(onDetected)], called on a screen that has the scanner
    container.  Every call subscribes one more callback with
    [Quagga.onDetected]; none is ever unsubscribed. *)
Definition startScanner (cb : Callback) (w : World) : World :=
  if cameraAvailable
  then set_subscribers (subscribers w ++ [cb]) (set_quaggaActive true w)
  else log WarnNoCamera w.

Definition stopScanner (w : World) : World := set_quaggaActive false w.

(** *** Screens *)

Definition showLogin (w : World) : World := set_screen Login w.
Definition showHome (w : World) : World := set_screen Home w.
Definition showImport (w : World) : World := set_screen Import w.
Definition showDatabase (w : World) : World := set_screen DatabaseView w.

Definition showOrderScan (w : World) : World :=
  startScanner OnOrder (set_screen OrderScan w).

(** [showPartScan] reads [state.currentOrder.parts.length] after it has
    cleared the page; without a current order that is a [TypeError]. *)
Definition showPartScan (w : World) : World :=
  match current w with
  | Some _ => startScanner OnPart (set_screen PartScan w)
  | None => log UncaughtTypeError (set_screen Blank w)
  end.

Definition showSummary (w : World) : World :=
  match current w with
  | Some _ => set_screen (Summary (negb (bool_decide (missingParts w = [])))) w
  | None => log UncaughtTypeError (set_screen Blank w)
  end.

(** *** Handlers *)

Definition handleOrderDetected (orderId : jsstring) (w : World) : World :=
  match find_order (heap w) orderId (orders (db w)) with
  | None => showOrderScan (alert (OrderNotFound orderId) w)
  | Some (l, order) =>
      if bool_decide (status order = Packed)
      then showOrderScan (alert OrderAlreadyPacked w)
      else showPartScan (set_scannedParts [] (set_currentOrder (Some l) w))
  end.

Definition handlePartDetected (partId : jsstring) (w : World) : World :=
  let partId := trim partId in
  if negb (truthy partId) then w
  else if includes (scannedParts w) partId then alert (DuplicatePart partId) w
  else match current w with
       | None => log UncaughtTypeError w
       | Some order =>
           if negb (includes (parts order) partId)
           then alert (PartNotInOrder partId) w
           else
             let w := set_scannedParts (scannedParts w ++ [partId]) w in
             if bool_decide (length (scannedParts w) = length (parts order))
             then showSummary (stopScanner w)
             else w
       end.

(** The login button, with the text of the user-name field. *)
Definition login (value : jsstring) (w : World) : World :=
  let username := trim value in
  if negb (truthy username) then alert EnterUserName w
  else showHome (set_localStorage (<[userKey := username]> (localStorage w))
                   (set_user (Some username) w)).

Definition logout (w : World) : World :=
  showLogin (set_localStorage (delete userKey (localStorage w)) (set_user None w)).

(** The manual-entry button of the order screen. *)
Definition manualOrder (value : jsstring) (w : World) : World :=
  let val := trim value in
  if negb (truthy val) then alert EnterOrderNumber w
  else handleOrderDetected val (stopScanner w).

(** The manual-entry button of the part screen. *)
Definition manualPart (value : jsstring) (w : World) : World :=
  let val := trim value in
  if negb (truthy val) then alert EnterPartNumber w
  else handlePartDetected val w.

(** The cancel button of the part screen. *)
Definition cancelParts (w : World) : World := showOrderScan (stopScanner w).

(** The cancel button of the order screen. *)
Definition cancelOrder (w : World) : World := showHome (stopScanner w).

Definition packed (o : Order) (now : jsstring) (by_ : option jsstring) : Order :=
  mkOrder (orderId o) (parts o) (customer o) (project o) (supplyDate o)
    Packed (Some now) by_.

(** The mark-packed button; [now] is [new Date().toISOString()]. *)
Definition markPacked (now : jsstring) (w : World) : World :=
  match currentOrder w, current w with
  | Some l, Some o =>
      showHome (alert OrderMarkedPacked
        (saveDatabase (set_heap (<[l := packed o now (user w)]> (heap w)) w)))
  | _, _ => log UncaughtTypeError w
  end.

Definition loadSample (w : World) : World :=
  showHome (alert SampleLoaded (saveDatabase (install [sampleOrder] w))).

(** The [complete] callback of [Papa.parse]. *)
Definition importComplete (data : list Row) (w : World) : World :=
  match normalize toLowerCase data with
  | Some os => showHome (alert DatabaseLoaded (saveDatabase (install os w)))
  | None => log UncaughtTypeError w
  end.

(** One subscribed detection callback of [startScanner]. *)
Definition onDetected (code : jsstring) (w : World) (cb : Callback) : World :=
  if negb (quaggaActive w) then w
  else if truthy code then
    let w := set_quaggaActive false w in
    match cb with
    | OnOrder => handleOrderDetected code w
    | OnPart => handlePartDetected code w
    end
  else w.

(** Quagga publishes a detection to the callbacks subscribed so far, in
    the order of subscription. *)
Definition publish (code : jsstring) (w : World) : World :=
  foldl (onDetected code) w (subscribers w).

(** [init]: the world after [DOMContentLoaded], from the stored entries. *)
Definition boot (store : gmap jsstring jsstring) : World :=
  mkWorld None (mkDatabase []) None [] [] store Blank false [] 0 [] [].

Definition init (store : gmap jsstring jsstring) : World :=
  let w := loadDatabase (boot store) in
  match localStorage w !! userKey with
  | Some ((_ :: _) as savedUser) => showHome (set_user (Some savedUser) w)
  | _ => showLogin w
  end.

(** *** Events *)

Inductive Event : Type :=
| ClickLogin (value : jsstring)
| ClickScanOrder
| ClickImport
| ClickDatabase
| ClickLogout
| ClickBackHome
| ClickLoadSample
| ChooseFile
| CsvComplete (data : list Row)
| CsvError (message : jsstring)
| ClickManualOrder (value : jsstring)
| ClickCancelOrder
| ClickManualPart (value : jsstring)
| ClickCancelParts
| ClickMarkPacked (now : jsstring)
| ClickBack
| ClickBackFromDb
| Detected (code : jsstring).

(** A click reaches its listener only while the screen shows its
    button, and a disabled button does not fire.  The callbacks of a
    pending [Papa.parse] and of Quagga come from outside the page. *)
Definition step (e : Event) (w : World) : World :=
  match e, screen w with
  | ClickLogin value, Login => login value w
  | ClickScanOrder, Home => showOrderScan w
  | ClickImport, Home => showImport w
  | ClickDatabase, Home => showDatabase w
  | ClickLogout, Home => logout w
  | ClickBackHome, Import => showHome w
  | ClickLoadSample, Import => loadSample w
  | ChooseFile, Import => set_pendingParses (S (pendingParses w)) w
  | CsvComplete data, _ =>
      match pendingParses w with
      | S n => importComplete data (set_pendingParses n w)
      | O => w
      end
  | CsvError message, _ =>
      match pendingParses w with
      | S n => alert (CsvReadError message) (set_pendingParses n w)
      | O => w
      end
  | ClickManualOrder value, OrderScan => manualOrder value w
  | ClickCancelOrder, OrderScan => cancelOrder w
  | ClickManualPart value, PartScan => manualPart value w
  | ClickCancelParts, PartScan => cancelParts w
  | ClickMarkPacked now, Summary false => markPacked now w
  | ClickBack, Summary _ => showHome w
  | ClickBackFromDb, DatabaseView => showHome w
  | Detected code, _ => publish code w
  | _, _ => w
  end.

Definition run (es : list Event) (w : World) : World :=
  foldl (λ w e, step e w) w es.

End App.

(** *** Predicates on worlds *)

(** The scan progress is consistent: the current order is an object of
    the store, no part was scanned twice, and every scanned part is a
    part of the current order. *)
Definition scan_inv (w : World) : Prop :=
  match currentOrder w with
  | None => True
  | Some l =>
      match heap w !! l with
      | None => False
      | Some o => NoDup (scannedParts w) ∧ Forall (λ p, p ∈ parts o) (scannedParts w)
      end
  end.

Global Instance scan_inv_dec w : Decision (scan_inv w).
Proof. unfold scan_inv. destruct (currentOrder w); [destruct (heap w !! _)|]; apply _. Defined.

(** The guards of [handlePartDetected] let the code through: it is not
    blank, was not scanned yet and is a part of the current order. *)
Definition accepts (w : World) (code : jsstring) : bool :=
  truthy (trim code) && negb (includes (scannedParts w) (trim code)) &&
  match current w with
  | Some o => includes (parts o) (trim code)
  | None => false
  end.

(** A summary screen is shown for a current order, with the scanner
    stopped, and its mark-packed button is disabled exactly when parts are
    missing. *)
Definition summary_inv (w : World) : Prop :=
  match screen w with
  | Summary d =>
      quaggaActive w = false ∧ d = negb (bool_decide (missingParts w = [])) ∧
      is_Some (current w)
  | _ => True
  end.

Global Instance summary_inv_dec w : Decision (summary_inv w).
Proof. unfold summary_inv. destruct (screen w); apply _. Defined.

(** The current order is the object that a lookup of its id in the
    database yields. *)
Definition current_in_db (w : World) : Prop :=
  match currentOrder w, current w with
  | Some l, Some o => find_order (heap w) (orderId o) (orders (db w)) = Some (l, o)
  | _, _ => False
  end.

Global Instance current_in_db_dec w : Decision (current_in_db w).
Proof. unfold current_in_db. destruct (currentOrder w), (current w); apply _. Defined.

(** *** Stand-ins for the platform

    Used only to run the model on concrete inputs: a [JSON.parse] on
    which every text is a syntax error, which is all a run needs that
    starts without a stored database or with corrupt text, and a
    [JSON.stringify] that writes the ids and statuses of the orders. *)
Definition JSON_parse_rejecting : jsstring → option (list Order) := λ _, None.

Definition JSON_stringify_ids (os : list Order) : jsstring :=
  concat ((λ o, orderId o ++ lit ":" ++ status o ++ lit ";") <$> os).

Definition demo : Platform :=
  {| JSON_parse := JSON_parse_rejecting;
     JSON_stringify := JSON_stringify_ids;
     toLowerCase := ascii_lower;
     cameraAvailable := true |}.

(** A session on the stand-in platform, from an empty store. *)
Definition demo_step (e : Event) (w : World) : World := step (P := demo) e w.

Definition demo_run (es : list Event) : World :=
  run (P := demo) es (init (P := demo) ∅).

(** The sample session: log in, pick ORDER001, scan its three parts. *)
Definition to_order_screen : list Event :=
  [ClickLogin (lit " Dana "); ClickScanOrder].

Definition to_part_screen : list Event :=
  to_order_screen ++ [ClickManualOrder (lit "ORDER001")].

Definition to_summary : list Event :=
  to_part_screen ++ [ClickManualPart (lit "PART002"); ClickManualPart (lit "PART001");
                     ClickManualPart (lit "PART003")].

(** A CSV file that lists part P1 of order A twice. *)
Definition rows_with_repeat : list Row :=
  [ [(lit "Order", lit "A"); (lit "Part", lit "P1")];
    [(lit "Order", lit "A"); (lit "Part", lit "P1")] ].

Definition to_repeated_part : list Event :=
  [ClickLogin (lit "Dana"); ClickImport; ChooseFile; CsvComplete rows_with_repeat;
   ClickScanOrder; ClickManualOrder (lit "A"); ClickManualPart (lit "P1")].

(** A CSV file whose rows all lack a part id. *)
Definition rows_without_parts : list Row :=
  [ [(lit "Order", lit "A"); (lit "Part", lit "  ")];
    [(lit "Order", lit "B"); (lit "Part", lit "")] ].

Definition rows_of_order001 : list Row :=
  [ [(lit "Order", lit "ORDER001"); (lit "Part", lit "PART001")] ].

(** A file is chosen and the import screen left before the parser is
    done; its rows arrive while the third part of ORDER001 is still to be
    scanned, and the camera then reads that part. *)
Definition late_import : list Event :=
  [ClickLogin (lit "Dana"); ClickImport; ChooseFile; ClickBackHome;
   ClickScanOrder; ClickManualOrder (lit "ORDER001");
   ClickManualPart (lit "PART001"); ClickManualPart (lit "PART002");
   CsvComplete rows_of_order001; Detected (lit "PART003")].

(** A world whose stored database text is not JSON. *)
Definition corrupt_store : gmap (list N) (list N) := {[ dbKey := lit "not json" ]}.

(** A string that does not begin with white space. *)
Definition head_ok (s : jsstring) : Prop :=
  match s with
  | [] => True
  | c :: _ => is_white_space c = false
  end.

(** Reduce the field reads of a world built by field updates. *)
Ltac wsimpl :=
  cbn [user db currentOrder scannedParts heap localStorage screen quaggaActive
       subscribers pendingParses alerts console orders
       set_user set_db set_currentOrder set_scannedParts set_heap
       set_localStorage set_screen set_quaggaActive set_subscribers
       set_pendingParses alert log].

Ltac wsimpl_in H :=
  cbn [user db currentOrder scannedParts heap localStorage screen quaggaActive
       subscribers pendingParses alerts console orders
       set_user set_db set_currentOrder set_scannedParts set_heap
       set_localStorage set_screen set_quaggaActive set_subscribers
       set_pendingParses alert log] in H.

(** ** The import, read off its rows *)

(** The order id and part id of the rows that are not skipped, in row
    order. *)
Definition resolved (cols : Columns) (data : list Row) : list (jsstring * jsstring) :=
  omap (resolve cols) data.

(** The part ids of the rows of order [id], in row order. *)
Definition parts_for (cols : Columns) (id : jsstring) (data : list Row) : list jsstring :=
  (filter (λ ip : jsstring * jsstring, ip.1 = id) (resolved cols data)).*2.

(** The first row of order [id]. *)
Definition first_row (cols : Columns) (id : jsstring) (data : list Row) : option Row :=
  List.find (λ row, bool_decide (fst <$> resolve cols row = Some id)) data.

(** The distinct elements of a list in the order of their first
    occurrence. *)
Definition first_seen (ids : list jsstring) : list jsstring :=
  reverse (remove_dups (reverse ids)).

Definition with_parts (o : Order) (ps : list jsstring) : Order :=
  mkOrder (orderId o) ps (customer o) (project o) (supplyDate o) (status o)
    (packedAt o) (packedBy o).

(** What [data.forEach] has built in [ordersMap] after the rows [done]:
    one entry per distinct order id, in the order of first occurrence,
    made from the first row of the id and holding the parts of all its
    rows. *)
Definition grouped (cols : Columns) (done : list Row) (m : OrdersMap) : Prop :=
  NoDup m.*1 ∧
  m.*1 = first_seen (resolved cols done).*1 ∧
  (∀ id, id ∈ m.*1 → inherited id = false) ∧
  (∀ id o, (id, o) ∈ m →
     ∃ row0, first_row cols id done = Some row0 ∧
             o = with_parts (new_order cols row0 id) (parts_for cols id done)).

(** ** Frames *)

(** The second world has the database, the order objects, the store and
    the user of the first. *)
Definition same_store (w w' : World) : Prop :=
  db w' = db w ∧ heap w' = heap w ∧ localStorage w' = localStorage w ∧
  user w' = user w.

(** The events whose listeners assign [state.db] or write to an order
    object. *)
Definition changes_database (e : Event) : bool :=
  match e with
  | ClickLoadSample | CsvComplete _ | ClickMarkPacked _ => true
  | _ => false
  end.

(** The events whose listeners assign [state.user]. *)
Definition changes_session (e : Event) : bool :=
  match e with
  | ClickLogin _ | ClickLogout => true
  | _ => false
  end.

Section Persistence.

Context {P : Platform}.

(** The stored database text is the serialization of the database held. *)
Definition stored_in_sync (w : World) : Prop :=
localStorage w !! dbKey = Some (JSON_stringify (db_orders w)).

End Persistence.

(** ** A stand-in platform that can read back what it wrote

    A serializer that writes every string with its length in front, and
    the parser for that format; used only to run the model on concrete
    inputs where a stored database is read back. *)
Definition write_string (s : jsstring) : jsstring := N.of_nat (length s) :: s.

Definition write_option (o : option jsstring) : jsstring :=
  match o with
  | None => [0%N]
  | Some s => 1%N :: write_string s
  end.

Definition write_strings (l : list jsstring) : jsstring :=
  N.of_nat (length l) :: concat (write_string <$> l).

Definition write_order (o : Order) : jsstring :=
  write_string (orderId o) ++ write_strings (parts o) ++ write_option (customer o) ++
  write_option (project o) ++ write_option (supplyDate o) ++ write_string (status o) ++
  write_option (packedAt o) ++ write_option (packedBy o).

Definition write_orders (os : list Order) : jsstring :=
  N.of_nat (length os) :: concat (write_order <$> os).

Definition read_string (l : jsstring) : option (jsstring * jsstring) :=
  match l with
  | n :: r => if decide (N.to_nat n ≤ length r)
              then Some (take (N.to_nat n) r, drop (N.to_nat n) r) else None
  | [] => None
  end.

Definition read_option (l : jsstring) : option (option jsstring * jsstring) :=
  match l with
  | 0%N :: r => Some (None, r)
  | 1%N :: r => '(s, r') ← read_string r; Some (Some s, r')
  | _ => None
  end.

Fixpoint read_many {A} (read : jsstring → option (A * jsstring)) (n : nat)
    (l : jsstring) : option (list A * jsstring) :=
  match n with
  | O => Some ([], l)
  | S n => '(x, r) ← read l; '(xs, r') ← read_many read n r; Some (x :: xs, r')
  end.

Definition read_strings (l : jsstring) : option (list jsstring * jsstring) :=
  match l with
  | n :: r => read_many read_string (N.to_nat n) r
  | [] => None
  end.

Definition read_order (l : jsstring) : option (Order * jsstring) :=
  '(id, r) ← read_string l; '(ps, r) ← read_strings r;
  '(c, r) ← read_option r; '(p, r) ← read_option r; '(d, r) ← read_option r;
  '(st, r) ← read_string r; '(at_, r) ← read_option r; '(by_, r) ← read_option r;
  Some (mkOrder id ps c p d st at_ by_, r).

Definition read_orders (l : jsstring) : option (list Order) :=
  match l with
  | n :: r => '(os, r') ← read_many read_order (N.to_nat n) r;
              if decide (r' = []) then Some os else None
  | [] => None
  end.

Definition codec : Platform :=
  {| JSON_parse := read_orders;
     JSON_stringify := write_orders;
     toLowerCase := ascii_lower;
     cameraAvailable := true |}.

(** The sample session up to the packing of ORDER001, on that platform. *)
Definition packed_session : World :=
  run (P := codec) (to_summary ++ [ClickMarkPacked (lit "2024-01-01T00:00:00.000Z")])
    (init (P := codec) ∅).

(** ** Progress *)

(** The two numbers that [updateProgress] writes into the progress
    element, scanned and total; [None] is the [TypeError] of reading
    [state.currentOrder.parts] without a current order. *)
Definition updateProgress (w : World) : option (nat * nat) :=
  o ← current w; Some (length (scannedParts w), length (parts o)).

(** A summary is shown only when as many parts were scanned as the
    current order lists. *)
Definition summary_complete (w : World) : Prop :=
  match screen w with
  | Summary _ =>
      match current w with
      | Some o => length (scannedParts w) = length (parts o)
      | None => False
      end
  | _ => True
  end.

(** ** The service worker of [service-worker.js]

    The worker's three listeners over the cache storage of the platform.
    A cache holds responses by request URL (the requests here are plain
    GET requests, and the relative names of [FILES_TO_CACHE] stand for
    the URLs they resolve to); [put] replaces an entry for the same URL;
    [caches.match] asks the caches in the order of their creation.
    [fetch] is the network: [None] is a rejected promise. *)
Definition CACHE_NAME : jsstring := lit "barcode-app-cache-v1".

Definition FILES_TO_CACHE : list jsstring :=
  [lit "/"; lit "index.html"; lit "style.css"; lit "main.js"; lit "manifest.json";
   lit "icon-192.png"; lit "icon-512.png"].

Record Response : Type := mkResponse { ok : bool; body : jsstring }.

Global Instance Response_eq_dec : EqDecision Response.
Proof. solve_decision. Defined.

Abbreviation Cache := (list (jsstring * Response)).
Abbreviation CacheStorage := (list (jsstring * list (jsstring * Response))).

Definition cache_put (url : jsstring) (r : Response) (c : Cache) : Cache :=
  filter (λ e : jsstring * Response, e.1 ≠ url) c ++ [(url, r)].

Definition cache_match (url : jsstring) (c : Cache) : option Response :=
  snd <$> List.find (λ e : jsstring * Response, bool_decide (e.1 = url)) c.

(** [caches.open(name)]: the cache is created when there is none. *)
Definition caches_open (name : jsstring) (cs : CacheStorage) : CacheStorage :=
  if bool_decide (name ∈ cs.*1) then cs else cs ++ [(name, [])].

Definition caches_delete (name : jsstring) (cs : CacheStorage) : CacheStorage :=
  filter (λ kc : jsstring * Cache, kc.1 ≠ name) cs.

Fixpoint caches_match (url : jsstring) (cs : CacheStorage) : option Response :=
  match cs with
  | [] => None
  | kc :: cs' =>
      match cache_match url kc.2 with
      | Some r => Some r
      | None => caches_match url cs'
      end
  end.

(** [cache.addAll(urls)] on the cache called [name]: every URL is
    fetched, and only if every response arrives and is ok are they all
    put; otherwise the promise rejects and nothing is written. *)
Definition addAll (fetch : jsstring → option Response) (urls : list jsstring)
    (name : jsstring) (cs : CacheStorage) : option CacheStorage :=
  rs ← mapM fetch urls;
  if forallb ok rs
  then Some ((λ kc : jsstring * Cache,
                if bool_decide (kc.1 = name)
                then (kc.1, foldl (λ c ur, cache_put ur.1 ur.2 c) kc.2 (zip urls rs))
                else kc) <$> cs)
  else None.

(** The install listener: the storage afterwards, and whether the
    promise given to [waitUntil] was fulfilled. *)
Definition sw_install (fetch : jsstring → option Response) (cs : CacheStorage)
  : CacheStorage * bool :=
  let cs := caches_open CACHE_NAME cs in
  match addAll fetch FILES_TO_CACHE CACHE_NAME cs with
  | Some cs' => (cs', true)
  | None => (cs, false)
  end.

(** The activate listener: [caches.delete(key)] for every key of
    [caches.keys()] that is not [CACHE_NAME]. *)
Definition sw_activate (cs : CacheStorage) : CacheStorage :=
  foldl (λ cs key, if bool_decide (key ≠ CACHE_NAME) then caches_delete key cs else cs)
    cs cs.*1.

(** The fetch listener: [response || fetch(evt.request)]. *)
Definition sw_fetch (fetch : jsstring → option Response) (cs : CacheStorage)
    (url : jsstring) : option Response :=
  match caches_match url cs with
  | Some response => Some response
  | None => fetch url
  end.

(** ** Inputs of the examples *)

(** Three rows of two orders, with a customer column. *)
Definition rows_two_customers : list Row :=
  [ [(lit "Order", lit "A"); (lit "Part", lit " P1 "); (lit "Customer", lit "Acme")];
    [(lit "Order", lit "B"); (lit "Part", lit "P3"); (lit "Customer", lit " Beta")];
    [(lit "Order", lit "A"); (lit "Part", lit "P2"); (lit "Customer", lit "Other")] ].

Definition orders_two_customers : list Order :=
  [ mkOrder (lit "A") [lit "P1"; lit "P2"] (Some (lit "Acme")) (Some []) (Some [])
      Pending None None;
    mkOrder (lit "B") [lit "P3"] (Some (lit "Beta")) (Some []) (Some [])
      Pending None None ].

(** Order numbers, the larger one first in the file. *)
Definition rows_numbered : list Row :=
  [ [(lit "Order", lit "1001"); (lit "Part", lit "P1")];
    [(lit "Order", lit "7"); (lit "Part", lit "P2")] ].

Definition orders_numbered : list Order :=
  [ mkOrder (lit "7") [lit "P2"] (Some []) (Some []) (Some []) Pending None None;
    mkOrder (lit "1001") [lit "P1"] (Some []) (Some []) (Some []) Pending None None ].

(** An order called like a property of every object. *)
Definition rows_inherited : list Row :=
  [ [(lit "Order", lit "constructor"); (lit "Part", lit "P1")] ].


Definition to_import_screen : list Event :=
  [ClickLogin (lit "Dana"); ClickImport].

Definition order_with_repeat : Order :=
  mkOrder (lit "A") [lit "P1"; lit "P1"] (Some []) (Some []) (Some []) Pending None None.

(** A network that answers every request, and a storage with a cache of
    an earlier version. *)
Definition network_up (url : jsstring) : option Response := Some (mkResponse true url).

Definition old_storage : list (jsstring * list (jsstring * Response)) :=
  [(lit "barcode-app-cache-v0", [(lit "index.html", mkResponse true (lit "old"))])].

(** * Properties *)

(** ** Strings and lookups *)

Lemma truthy_nonempty (s : jsstring) : truthy s = true ↔ s ≠ [].
Proof. destruct s; simpl; split; congruence. Qed.

Lemma includes_elem_of (l : list jsstring) (x : jsstring) :
  includes l x = true ↔ x ∈ l.
Proof. unfold includes. apply bool_decide_eq_true. Qed.

Lemma includes_not_elem_of (l : list jsstring) (x : jsstring) :
  includes l x = false ↔ x ∉ l.
Proof. unfold includes. apply bool_decide_eq_false. Qed.

(** What [find] returns is an order of the array with the id asked for. *)
Lemma find_order_Some h id ls l o :
  find_order h id ls = Some (l, o) → l ∈ ls ∧ h !! l = Some o ∧ orderId o = id.
Proof.
  induction ls as [|l' ls IH]; simpl; [done|].
  destruct (h !! l') as [o'|] eqn:Hl'.
  - case_bool_decide as Hid.
    + intros [= <- <-]. split; [left | done].
    + intros H. destruct (IH H) as (? & ? & ?). split; [by right | done].
  - intros H. destruct (IH H) as (? & ? & ?). split; [by right | done].
Qed.

(** [find] yields nothing exactly when no order of the array has the id. *)
Lemma find_order_None h id ls :
  find_order h id ls = None ↔ ∀ o, o ∈ omap (λ l, h !! l) ls → orderId o ≠ id.
Proof.
  induction ls as [|l' ls IH]; simpl.
  - split; [|done]. intros _ o Ho. by apply elem_of_nil in Ho.
  - destruct (h !! l') as [o'|] eqn:Hl'.
    + case_bool_decide as Hid.
      * split; [done|]. intros H. exfalso. apply (H o'); [left | done].
      * rewrite IH. split.
        -- intros H o [->|Ho]%elem_of_cons; auto.
        -- intros H o Ho. apply H. by right.
    + apply IH.
Qed.

(** Packing rewrites the object in place: a later [find] of its id
    yields the same address, now with the packed object. *)
Lemma find_order_update h id ls l o o' :
  find_order h id ls = Some (l, o) → orderId o' = orderId o →
  find_order (<[l := o']> h) id ls = Some (l, o').
Proof.
  intros Hfind Hid'. revert Hfind.
  induction ls as [|l' ls IH]; cbn [find_order]; [done|].
  destruct (decide (l' = l)) as [->|Hne].
  - destruct (h !! l) as [o1|] eqn:Hl.
    + rewrite list_lookup_insert_eq; [|by eapply lookup_lt_Some].
      destruct (bool_decide (orderId o1 = id)) eqn:Hb.
      * intros [= <-]. apply bool_decide_eq_true in Hb.
        rewrite bool_decide_eq_true_2; [done | congruence].
      * intros Hfind.
        destruct (find_order_Some _ _ _ _ _ Hfind) as (_ & Hl' & Hid).
        apply bool_decide_eq_false in Hb. congruence.
    + intros Hfind.
      destruct (find_order_Some _ _ _ _ _ Hfind) as (_ & Hl' & _). congruence.
  - rewrite list_lookup_insert_ne by done.
    destruct (h !! l') as [o1|] eqn:Hl'; [|exact IH].
    case_bool_decide; [intros [= ? ?]; congruence | exact IH].
Qed.

(** The orders just installed are the orders of the database. *)
Lemma lookup_fresh (h os : list Order) :
  omap (λ l, (h ++ os) !! l) (seq (length h) (length os)) = os.
Proof.
  revert h. induction os as [|o os IH]; intros h; simpl; [done|].
  rewrite lookup_app_r by lia. rewrite Nat.sub_diag. simpl. f_equal.
  specialize (IH (h ++ [o])). rewrite length_app in IH. simpl in IH.
  rewrite Nat.add_1_r in IH. by rewrite <- app_assoc in IH.
Qed.

Lemma db_orders_install os w : db_orders (install os w) = os.
Proof. unfold db_orders, install. simpl. apply lookup_fresh. Qed.

(** ** The import on concrete rows: trimming, skipping, merging, and
    [Object.values] listing the array-index id 7 before the id A *)

Example normalize_two_orders :
  normalize ascii_lower
    [ [(lit "Order", lit "A"); (lit "Part", lit " P1 ")];
      [(lit "Order", lit "7"); (lit "Part", lit "P3")];
      [(lit "Order", lit ""); (lit "Part", lit "")];
      [(lit "Order", lit "A"); (lit "Part", lit "P2")] ]
  = Some [ mkOrder (lit "7") [lit "P3"] (Some []) (Some []) (Some []) Pending None None;
           mkOrder (lit "A") [lit "P1"; lit "P2"] (Some []) (Some []) (Some []) Pending None None ].
Proof. vm_compute. reflexivity. Qed.

Example normalize_inherited_name_throws :
  normalize ascii_lower [ [(lit "Order", lit "constructor"); (lit "Part", lit "P1")] ] = None.
Proof. vm_compute. reflexivity. Qed.

(** ** Worlds *)

Lemma userKey_ne_dbKey : userKey ≠ dbKey.
Proof. discriminate. Qed.

(** ** Trimming *)

Lemma trimStart_head_ok s : head_ok (trimStart s).
Proof.
  induction s as [|c s IH]; simpl; [done|].
  destruct (is_white_space c) eqn:Hc; [done | by simpl].
Qed.

Lemma trimStart_fixed s : head_ok s → trimStart s = s.
Proof. destruct s as [|c s]; simpl; [done|]. by intros ->. Qed.

Lemma trimStart_snoc s c :
  is_white_space c = false → trimStart (s ++ [c]) = trimStart s ++ [c].
Proof.
  intros Hc. induction s as [|d s IH]; simpl; [by rewrite Hc|].
  by destruct (is_white_space d).
Qed.

Lemma trimEnd_head_ok s : head_ok s → head_ok (trimEnd s).
Proof.
  destruct s as [|c s]; [done|]. simpl. intros Hc.
  unfold trimEnd. rewrite reverse_cons, trimStart_snoc by done.
  by rewrite reverse_app.
Qed.

Lemma trimEnd_idemp s : trimEnd (trimEnd s) = trimEnd s.
Proof.
  unfold trimEnd. rewrite reverse_involutive.
  by rewrite (trimStart_fixed (trimStart _)) by apply trimStart_head_ok.
Qed.

(** Trimming a trimmed string changes nothing. *)
Lemma trim_idemp s : trim (trim s) = trim s.
Proof.
  unfold trim.
  rewrite (trimStart_fixed (trimEnd _))
    by apply trimEnd_head_ok, trimStart_head_ok.
  apply trimEnd_idemp.
Qed.

Example trim_padded : trim (lit "  PART001 ") = lit "PART001".
Proof. reflexivity. Qed.

Example trim_blank : trim [9; 32; 160; 8195; 65279]%N = [].
Proof. reflexivity. Qed.

Example trim_keeps_inner : trim (lit " A B ") = lit "A B".
Proof. reflexivity. Qed.

Section Properties.

Context {P : Platform}.

(** ** The scanner *)

Lemma stopScanner_inactive w : quaggaActive (stopScanner w) = false.
Proof. done. Qed.

Lemma onDetected_inactive code w cb :
  quaggaActive w = false → onDetected code w cb = w.
Proof. intros H. unfold onDetected. by rewrite H. Qed.

Lemma publish_inactive code w cbs :
  quaggaActive w = false → foldl (onDetected code) w cbs = w.
Proof.
  intros H. induction cbs as [|cb cbs IH]; simpl; [done|].
  by rewrite onDetected_inactive.
Qed.

Lemma step_Detected code w : step (Detected code) w = publish code w.
Proof. unfold step. by destruct (screen w) as [| | | | | |[]|]. Qed.

(** C8. A detection that Quagga publishes while the active flag is
    false, as it is once [stopScanner] has run, is dropped by every
    subscribed callback: the world after the event is the world before
    it, so nothing of the state, the screen, the store, the
    notifications or the console changes, and no handler of the state
    machine runs. *)
Theorem stale_detection_discarded (w : World) (code : jsstring) :
  quaggaActive w = false → step (Detected code) w = w.
Proof. intros H. rewrite step_Detected. by apply publish_inactive. Qed.

(** ** Login and logout *)

(** C7. On the login screen a name that is not empty once trimmed logs
    in: [state.user] and the stored user entry hold the trimmed name,
    no notification is raised and the home screen is shown.  Logging out
    from there clears both, shows the login screen, and leaves the
    database, its order objects and the stored database entry as they
    were. *)
Theorem login_then_logout (w : World) (name : jsstring) :
  screen w = Login → trim name ≠ [] →
  let w1 := step (ClickLogin name) w in
  let w2 := step ClickLogout w1 in
  (user w1 = Some (trim name) ∧ localStorage w1 !! userKey = Some (trim name) ∧
   screen w1 = Home ∧ alerts w1 = alerts w) ∧
  (user w2 = None ∧ localStorage w2 !! userKey = None ∧ screen w2 = Login) ∧
  (db w2 = db w ∧ heap w2 = heap w ∧ db_orders w2 = db_orders w ∧
   localStorage w2 !! dbKey = localStorage w !! dbKey).
Proof.
  intros Hs Hname. apply truthy_nonempty in Hname.
  assert (step (ClickLogin name) w = login name w) as ->
    by (unfold step; by rewrite Hs).
  unfold login. rewrite Hname. cbn [negb]. cbn zeta.
  unfold step, showHome. wsimpl. unfold logout, showLogin, db_orders. wsimpl.
  rewrite lookup_insert_eq, lookup_delete_eq.
  rewrite lookup_delete_ne, lookup_insert_ne by apply userKey_ne_dbKey.
  done.
Qed.

(** ** Submitting a part *)

(** The five ways [handlePartDetected] can go. *)
Lemma handlePartDetected_cases (code : jsstring) (w : World) :
  let p := trim code in
  let w1 := set_scannedParts (scannedParts w ++ [p]) w in
  (p = [] ∧ handlePartDetected code w = w) ∨
  (p ≠ [] ∧ (p ∈ scannedParts w) ∧
     handlePartDetected code w = alert (DuplicatePart p) w) ∨
  (p ≠ [] ∧ (p ∉ scannedParts w) ∧ current w = None ∧
     handlePartDetected code w = log UncaughtTypeError w) ∨
  (∃ o, current w = Some o ∧ p ≠ [] ∧ (p ∉ scannedParts w) ∧ (p ∉ parts o) ∧
     handlePartDetected code w = alert (PartNotInOrder p) w) ∨
  (∃ o, current w = Some o ∧ p ≠ [] ∧ (p ∉ scannedParts w) ∧ (p ∈ parts o) ∧
     handlePartDetected code w =
       if bool_decide (length (scannedParts w ++ [p]) = length (parts o))
       then showSummary (stopScanner w1) else w1).
Proof.
  intros p w1. unfold handlePartDetected. fold p.
  destruct (truthy p) eqn:Ht; cbn [negb].
  2:{ left. destruct p; [done | discriminate]. }
  apply truthy_nonempty in Ht. right.
  destruct (includes (scannedParts w) p) eqn:Hdup.
  { left. by apply includes_elem_of in Hdup. }
  apply includes_not_elem_of in Hdup. right.
  destruct (current w) as [o|] eqn:Hcur; [|by left].
  right.
  destruct (includes (parts o) p) eqn:Hin; cbn [negb].
  - right. exists o. apply includes_elem_of in Hin. wsimpl. split_and!; done.
  - left. exists o. apply includes_not_elem_of in Hin. split_and!; done.
Qed.

Lemma current_showSummary w : current (showSummary w) = current w.
Proof. unfold showSummary. by destruct (current w) eqn:E; unfold current in *. Qed.

Lemma scannedParts_showSummary w : scannedParts (showSummary w) = scannedParts w.
Proof. unfold showSummary. by destruct (current w). Qed.

Lemma currentOrder_handlePartDetected code w :
  currentOrder (handlePartDetected code w) = currentOrder w.
Proof.
  unfold handlePartDetected, showSummary, stopScanner, current.
  repeat case_match; by wsimpl.
Qed.

Lemma heap_handlePartDetected code w :
  heap (handlePartDetected code w) = heap w.
Proof.
  unfold handlePartDetected, showSummary, stopScanner, current.
  repeat case_match; by wsimpl.
Qed.

Lemma current_handlePartDetected code w :
  current (handlePartDetected code w) = current w.
Proof.
  unfold current.
  by rewrite currentOrder_handlePartDetected, heap_handlePartDetected.
Qed.

Lemma scannedParts_handlePartDetected code w :
  scannedParts (handlePartDetected code w)
  = if accepts w code then scannedParts w ++ [trim code] else scannedParts w.
Proof.
  unfold accepts, handlePartDetected.
  destruct (truthy (trim code)); cbn [negb andb]; [|done].
  destruct (includes (scannedParts w) (trim code)); cbn [negb andb]; [done|].
  destruct (current w) as [o|] eqn:Hc; [|done].
  destruct (includes (parts o) (trim code)); cbn [negb]; [|done].
  case_bool_decide; [|done].
  by rewrite scannedParts_showSummary.
Qed.



(** A code that is not blank and names a part of the current order is
    in [scannedParts] after one submission, so the next one is answered
    with the duplicate notice. *)
Lemma handlePartDetected_again (w : World) (code : jsstring) (o : Order) :
  current w = Some o → trim code ≠ [] → trim code ∈ parts o →
  handlePartDetected code (handlePartDetected code w)
  = alert (DuplicatePart (trim code)) (handlePartDetected code w).
Proof.
  intros Hc Hp Hin.
  assert (trim code ∈ scannedParts (handlePartDetected code w)) as Hs.
  { rewrite scannedParts_handlePartDetected. unfold accepts.
    rewrite Hc. apply truthy_nonempty in Hp. rewrite Hp.
    apply includes_elem_of in Hin. rewrite Hin. cbn [andb].
    destruct (includes (scannedParts w) (trim code)) eqn:Hd; cbn [negb andb].
    - by apply includes_elem_of.
    - apply elem_of_app. right. by left. }
  destruct (handlePartDetected_cases code (handlePartDetected code w))
    as [[? _]|[(_ & _ & E)|[(_ & ? & _)|[(? & _ & _ & ? & _)|(? & _ & _ & ? & _)]]]];
    done.
Qed.


Lemma step_ClickManualPart value w :
  screen w = PartScan → step (ClickManualPart value) w = manualPart value w.
Proof. intros H. unfold step. by rewrite H. Qed.

Lemma manualPart_nonblank value w :
  trim value ≠ [] → manualPart value w = handlePartDetected value w.
Proof.
  intros H. unfold manualPart. apply truthy_nonempty in H. rewrite H.
  cbn [negb]. unfold handlePartDetected. by rewrite trim_idemp.
Qed.

(** The same through the manual-entry button of the part screen. *)
Corollary retyped_part_is_duplicate (w : World) (value : jsstring) (o : Order) :
  screen w = PartScan → current w = Some o →
  trim value ≠ [] → trim value ∈ parts o →
  let w1 := step (ClickManualPart value) w in
  screen w1 = PartScan →
  step (ClickManualPart value) w1 = alert (DuplicatePart (trim value)) w1.
Proof.
  intros Hs Hc Hp Hin w1 Hs1. subst w1.
  rewrite step_ClickManualPart in * by done.
  rewrite step_ClickManualPart by done.
  rewrite !manualPart_nonblank by done.
  by eapply handlePartDetected_again.
Qed.

(** ** The scan progress stays consistent *)

(** [scan_inv] looks at the current order, the scanned parts and the
    part list of the current order object only. *)
Lemma scan_inv_ext (w w' : World) :
  currentOrder w' = currentOrder w →
  scannedParts w' = scannedParts w →
  (∀ l o, currentOrder w = Some l → heap w !! l = Some o →
     ∃ o', heap w' !! l = Some o' ∧ parts o' = parts o) →
  scan_inv w → scan_inv w'.
Proof.
  unfold scan_inv. intros -> -> Hh.
  destruct (currentOrder w) as [l|]; [|done].
  destruct (heap w !! l) as [o|] eqn:Hl; [|done].
  destruct (Hh l o eq_refl Hl) as (o' & -> & ->). done.
Qed.

Lemma scan_inv_same_heap (w w' : World) :
  currentOrder w' = currentOrder w → scannedParts w' = scannedParts w →
  heap w' = heap w → scan_inv w → scan_inv w'.
Proof. intros Hc Hs Hh. apply scan_inv_ext; [done..|]. rewrite Hh. eauto. Qed.

Lemma scan_inv_startScanner cb w : scan_inv w → scan_inv (startScanner cb w).
Proof. apply scan_inv_same_heap; unfold startScanner; by destruct cameraAvailable. Qed.

Lemma scan_inv_showOrderScan w : scan_inv w → scan_inv (showOrderScan w).
Proof.
  intros H. unfold showOrderScan. apply scan_inv_startScanner.
  revert H. by apply scan_inv_same_heap.
Qed.

Lemma scan_inv_showPartScan w : scan_inv w → scan_inv (showPartScan w).
Proof.
  intros H. unfold showPartScan. destruct (current w).
  - apply scan_inv_startScanner. revert H. by apply scan_inv_same_heap.
  - revert H. by apply scan_inv_same_heap.
Qed.

Lemma scan_inv_showSummary w : scan_inv w → scan_inv (showSummary w).
Proof.
  unfold showSummary. destruct (current w); by apply scan_inv_same_heap.
Qed.

Lemma scan_inv_saveDatabase w : scan_inv w → scan_inv (saveDatabase w).
Proof. by apply scan_inv_same_heap. Qed.

Lemma scan_inv_install os w : scan_inv w → scan_inv (install os w).
Proof.
  apply scan_inv_ext; [done..|]. intros l o _ Hl. exists o.
  split; [|done]. unfold install. wsimpl. by apply lookup_app_l_Some.
Qed.

Lemma scan_inv_handleOrderDetected code w :
  scan_inv w → scan_inv (handleOrderDetected code w).
Proof.
  intros H. unfold handleOrderDetected.
  destruct (find_order _ _ _) as [[l o]|] eqn:Hf.
  - case_bool_decide.
    + apply scan_inv_showOrderScan. revert H. by apply scan_inv_same_heap.
    + apply scan_inv_showPartScan. unfold scan_inv. wsimpl.
      apply find_order_Some in Hf as (_ & -> & _).
      split; [apply NoDup_nil_2 | apply Forall_nil_2].
  - apply scan_inv_showOrderScan. revert H. by apply scan_inv_same_heap.
Qed.

Lemma scan_inv_handlePartDetected code w :
  scan_inv w → scan_inv (handlePartDetected code w).
Proof.
  unfold scan_inv.
  rewrite currentOrder_handlePartDetected, heap_handlePartDetected,
    scannedParts_handlePartDetected.
  destruct (accepts w code) eqn:Ha; [|done].
  unfold accepts, current in Ha.
  destruct (currentOrder w) as [l|]; [|done]. cbn [mbind option_bind] in Ha.
  destruct (heap w !! l) as [o|]; [|done].
  apply andb_true_iff in Ha as [[_ Hn]%andb_true_iff Hin].
  apply negb_true_iff, includes_not_elem_of in Hn.
  apply includes_elem_of in Hin.
  intros [Hnd Hall]. split.
  - apply NoDup_app. split_and!; [done| |apply NoDup_singleton].
    intros x Hx ->%list_elem_of_singleton. done.
  - apply Forall_app. split; [done|]. by apply Forall_singleton.
Qed.

Lemma scan_inv_markPacked now w : scan_inv w → scan_inv (markPacked now w).
Proof.
  unfold markPacked, current.
  destruct (currentOrder w) as [l|] eqn:Hc; cbn [mbind option_bind].
  2:{ by apply scan_inv_same_heap. }
  destruct (heap w !! l) as [o|] eqn:Hl.
  2:{ by apply scan_inv_same_heap. }
  apply scan_inv_ext; [done..|].
  intros l' o' Hc' Hl'. unfold showHome, saveDatabase. wsimpl.
  assert (l' = l) as -> by congruence. assert (o' = o) as -> by congruence.
  exists (packed o now (user w)). split; [|done].
  apply list_lookup_insert_eq. by eapply lookup_lt_Some.
Qed.

Lemma scan_inv_importComplete data w :
  scan_inv w → scan_inv (importComplete data w).
Proof.
  intros H. unfold importComplete. destruct (normalize _ _).
  - unfold showHome.
    assert (scan_inv (saveDatabase (install l w))) as H'
      by by apply scan_inv_saveDatabase, scan_inv_install.
    revert H'. by apply scan_inv_same_heap.
  - revert H. by apply scan_inv_same_heap.
Qed.

Lemma scan_inv_loadSample w : scan_inv w → scan_inv (loadSample w).
Proof.
  intros H. unfold loadSample, showHome.
  assert (scan_inv (saveDatabase (install [sampleOrder] w))) as H'
    by by apply scan_inv_saveDatabase, scan_inv_install.
  revert H'. by apply scan_inv_same_heap.
Qed.

Lemma scan_inv_onDetected code w cb :
  scan_inv w → scan_inv (onDetected code w cb).
Proof.
  intros H. unfold onDetected.
  destruct (quaggaActive w); cbn [negb]; [|done].
  destruct (truthy code); [|done].
  assert (scan_inv (set_quaggaActive false w)) as H'
    by (revert H; by apply scan_inv_same_heap).
  destruct cb;
    [by apply scan_inv_handleOrderDetected | by apply scan_inv_handlePartDetected].
Qed.

Lemma scan_inv_publish code w : scan_inv w → scan_inv (publish code w).
Proof.
  unfold publish. generalize (subscribers w) as cbs. intros cbs. revert w.
  induction cbs as [|cb cbs IH]; intros w H; simpl; [done|].
  by apply IH, scan_inv_onDetected.
Qed.

Lemma scan_inv_manualOrder value w : scan_inv w → scan_inv (manualOrder value w).
Proof.
  intros H. unfold manualOrder. destruct (truthy _); cbn [negb].
  - apply scan_inv_handleOrderDetected. revert H. by apply scan_inv_same_heap.
  - revert H. by apply scan_inv_same_heap.
Qed.

Lemma scan_inv_manualPart value w : scan_inv w → scan_inv (manualPart value w).
Proof.
  intros H. unfold manualPart. destruct (truthy _); cbn [negb].
  - by apply scan_inv_handlePartDetected.
  - revert H. by apply scan_inv_same_heap.
Qed.

Lemma scan_inv_cancelParts w : scan_inv w → scan_inv (cancelParts w).
Proof.
  intros H. unfold cancelParts. apply scan_inv_showOrderScan.
  revert H. by apply scan_inv_same_heap.
Qed.

Lemma scan_inv_login value w : scan_inv w → scan_inv (login value w).
Proof.
  unfold login. destruct (truthy _); cbn [negb]; by apply scan_inv_same_heap.
Qed.

Lemma scan_inv_step e w : scan_inv w → scan_inv (step e w).
Proof.
  intros H. unfold step.
  destruct e; destruct (screen w) as [| | | | | |[]|]; try done;
    try (destruct (pendingParses w) as [|n]; [done|]);
    first
      [ by apply scan_inv_login
      | by apply scan_inv_showOrderScan
      | by apply scan_inv_loadSample
      | by apply scan_inv_manualOrder
      | by apply scan_inv_manualPart
      | by apply scan_inv_cancelParts
      | by apply scan_inv_markPacked
      | by apply scan_inv_publish
      | apply scan_inv_importComplete; revert H; by apply scan_inv_same_heap
      | revert H; by apply scan_inv_same_heap ].
Qed.

(** A consistent scan progress holds at most as many parts as the
    current order has distinct part identifiers. *)
Lemma scan_inv_bound w o :
  scan_inv w → current w = Some o →
  length (scannedParts w) ≤ length (remove_dups (parts o)).
Proof.
  unfold scan_inv, current.
  destruct (currentOrder w) as [l|]; [|done]. cbn [mbind option_bind].
  intros H Hl. rewrite Hl in H. destruct H as [Hnd Hall].
  apply submseteq_length, NoDup_submseteq; [done|].
  intros p Hp. apply elem_of_remove_dups.
  rewrite Forall_forall in Hall. by apply Hall.
Qed.

(** C9. Every operation of the application preserves the consistency of
    the scan progress: if, whenever a current order is selected, it is an
    order object, [scannedParts] has no duplicates and all its elements
    are parts of the current order, then the same holds after any event,
    and [scannedParts] is then no longer than the list of distinct part
    identifiers of the current order. *)
Theorem scan_progress_invariant (e : Event) (w : World) :
  scan_inv w →
  scan_inv (step e w) ∧
  ∀ o, current (step e w) = Some o →
       length (scannedParts (step e w)) ≤ length (remove_dups (parts o)).
Proof.
  intros H. apply (scan_inv_step e) in H. split; [done|].
  intros o. by apply scan_inv_bound.
Qed.

Lemma scan_inv_init store : scan_inv (init store).
Proof.
  unfold init, loadDatabase, boot, scan_inv, install, saveDatabase, showHome, showLogin.
  repeat case_match; by wsimpl.
Qed.

Lemma scan_inv_run es w : scan_inv w → scan_inv (run es w).
Proof.
  revert w. unfold run.
  induction es as [|e es IH]; intros w H; simpl; [done|].
  by apply IH, scan_inv_step.
Qed.

(** In every world the application can reach from its start, the scan
    progress is consistent. *)
Corollary scan_inv_reachable store es : scan_inv (run es (init store)).
Proof. apply scan_inv_run, scan_inv_init. Qed.

(** ** Reaching the summary *)

Lemma remove_dups_length_le (l : list jsstring) :
  length (remove_dups l) ≤ length l.
Proof.
  induction l as [|x l IH]; simpl; [done|].
  destruct (decide_rel _ x l); simpl; lia.
Qed.

Lemma remove_dups_length_lt (l : list jsstring) :
  ¬ NoDup l → length (remove_dups l) < length l.
Proof.
  induction l as [|x l IH]; simpl; intros H.
  - destruct H. apply NoDup_nil_2.
  - destruct (decide_rel _ x l) as [Hin|Hin]; simpl.
    + pose proof (remove_dups_length_le l). lia.
    + apply Nat.succ_lt_mono in IH; [done|].
      intros Hnd. apply H. by apply NoDup_cons.
Qed.

Lemma remove_dups_NoDup (l : list jsstring) : NoDup l → remove_dups l = l.
Proof.
  induction 1 as [|x l Hx Hl IH]; simpl; [done|].
  destruct (decide_rel _ x l); [done | by rewrite IH].
Qed.

(** What an accepted code does. *)
Lemma handlePartDetected_accepted (w : World) (code : jsstring) (o : Order) :
  current w = Some o → accepts w code = true →
  handlePartDetected code w =
    let w1 := set_scannedParts (scannedParts w ++ [trim code]) w in
    if bool_decide (length (scannedParts w1) = length (parts o))
    then showSummary (stopScanner w1) else w1.
Proof.
  intros Hc Ha. unfold accepts in Ha. rewrite Hc in Ha.
  apply andb_true_iff in Ha as [[Ht Hn]%andb_true_iff Hin].
  unfold handlePartDetected. rewrite Ht, Hc, Hin.
  apply negb_true_iff in Hn. by rewrite Hn.
Qed.

(** What a code that is not accepted does: a notification or a console
    line at most. *)
Lemma handlePartDetected_rejected (w : World) (code : jsstring) :
  accepts w code = false →
  screen (handlePartDetected code w) = screen w ∧
  quaggaActive (handlePartDetected code w) = quaggaActive w ∧
  scannedParts (handlePartDetected code w) = scannedParts w.
Proof.
  intros Ha. unfold accepts in Ha. unfold handlePartDetected.
  destruct (truthy (trim code)); cbn [negb andb] in *; [|done].
  destruct (includes (scannedParts w) (trim code)); cbn [negb andb] in *; [done|].
  destruct (current w) as [o|]; [|done].
  by rewrite Ha.
Qed.

(** When the scanned parts are as many as the parts of the order, none
    is missing. *)
Lemma complete_nothing_missing (w : World) (o : Order) :
  scan_inv w → current w = Some o →
  length (scannedParts w) = length (parts o) → missingParts w = [].
Proof.
  intros Hinv Hc Hlen. unfold missingParts. rewrite Hc.
  unfold scan_inv, current in *.
  destruct (currentOrder w) as [l|]; [|done]. cbn [mbind option_bind] in Hc.
  rewrite Hc in Hinv. destruct Hinv as [Hnd Hall].
  rewrite Forall_forall in Hall.
  assert (scannedParts w ≡ₚ parts o) as Hperm.
  { apply submseteq_length_Permutation; [by apply NoDup_submseteq | lia]. }
  apply elem_of_nil_inv. intros p [Hnot Hp]%list_elem_of_filter.
  apply Hnot. by rewrite Hperm.
Qed.

(** For an order whose part list has no repeated identifier, an accepted
    code leads to the summary exactly when the scanned parts are then as
    many as the distinct part identifiers, and the summary has nothing
    missing. *)
Lemma summary_when_complete (w : World) (code : jsstring) (o : Order) :
  screen w = PartScan → scan_inv w → current w = Some o → NoDup (parts o) →
  accepts w code = true →
  let w' := handlePartDetected code w in
  (screen w' = Summary false ∧ missingParts w' = [] ∧
   length (scannedParts w') = length (remove_dups (parts o))) ∨
  (screen w' = PartScan ∧
   length (scannedParts w') < length (remove_dups (parts o))).
Proof.
  intros Hs Hinv Hc Hnd Ha w'.
  pose proof (scan_inv_handlePartDetected code w Hinv) as Hinv'.
  pose proof (current_handlePartDetected code w) as Hc'. rewrite Hc in Hc'.
  pose proof (scan_inv_bound _ _ Hinv' Hc') as Hle.
  rewrite remove_dups_NoDup in * by done.
  subst w'. revert Hinv' Hc' Hle.
  rewrite (handlePartDetected_accepted w code o) by done. cbn zeta.
  case_bool_decide as Hlen.
  - intros Hinv' Hc' _. left.
    pose proof (complete_nothing_missing _ o Hinv' Hc') as Hm.
    rewrite scannedParts_showSummary in *. specialize (Hm Hlen).
    split_and!; [|done..].
    rewrite current_showSummary in Hc'.
    unfold showSummary in *. rewrite Hc' in *.
    wsimpl. unfold missingParts, current in *. wsimpl_in Hm. wsimpl.
    by rewrite Hm.
  - intros _ _ Hle. right. wsimpl. wsimpl_in Hle. wsimpl_in Hlen.
    split; [done | lia].
Qed.

(** For an order whose part list repeats an identifier, no submission
    ever leads to the summary. *)
Lemma no_summary_with_repeated_part (w : World) (code : jsstring) (o : Order) :
  scan_inv w → current w = Some o → ¬ NoDup (parts o) →
  screen (handlePartDetected code w) = screen w.
Proof.
  intros Hinv Hc Hdup.
  destruct (accepts w code) eqn:Ha.
  2:{ by apply handlePartDetected_rejected. }
  pose proof (scan_inv_handlePartDetected code w Hinv) as Hinv'.
  pose proof (current_handlePartDetected code w) as Hc'. rewrite Hc in Hc'.
  pose proof (scan_inv_bound _ _ Hinv' Hc') as Hle.
  pose proof (remove_dups_length_lt _ Hdup) as Hlt.
  revert Hle. rewrite scannedParts_handlePartDetected, Ha.
  rewrite (handlePartDetected_accepted w code o) by done. cbn zeta.
  intros Hle. wsimpl. rewrite bool_decide_eq_false_2; [done | lia].
Qed.

(** ** The summary screen and packing *)

Lemma summary_inv_elsewhere w : (∀ d, screen w ≠ Summary d) → summary_inv w.
Proof. unfold summary_inv. destruct (screen w); [done..|naive_solver|done]. Qed.

Lemma summary_inv_same (w w' : World) :
  screen w' = screen w → quaggaActive w' = quaggaActive w →
  currentOrder w' = currentOrder w → scannedParts w' = scannedParts w →
  heap w' = heap w → summary_inv w → summary_inv w'.
Proof.
  unfold summary_inv, missingParts, current. by intros -> -> -> -> ->.
Qed.

Lemma screen_startScanner cb w : screen (startScanner cb w) = screen w.
Proof. unfold startScanner. by destruct cameraAvailable. Qed.

Lemma summary_inv_showOrderScan w : summary_inv (showOrderScan w).
Proof.
  apply summary_inv_elsewhere. intros d.
  unfold showOrderScan. by rewrite screen_startScanner.
Qed.

Lemma summary_inv_showPartScan w : summary_inv (showPartScan w).
Proof.
  apply summary_inv_elsewhere. intros d. unfold showPartScan.
  destruct (current w); [by rewrite screen_startScanner | done].
Qed.

Lemma summary_inv_handleOrderDetected code w :
  summary_inv (handleOrderDetected code w).
Proof.
  unfold handleOrderDetected.
  destruct (find_order _ _ _) as [[l o]|]; [case_bool_decide|];
    auto using summary_inv_showOrderScan, summary_inv_showPartScan.
Qed.

Lemma summary_inv_showSummary w :
  quaggaActive w = false → summary_inv (showSummary w).
Proof.
  intros Hq. unfold showSummary. destruct (current w) eqn:Hc; [|done].
  unfold summary_inv, missingParts, current in *. wsimpl. by rewrite Hc.
Qed.

(** Outside the summary screen a part submission keeps [summary_inv]. *)
Lemma summary_inv_handlePartDetected code w :
  (∀ d, screen w ≠ Summary d) → summary_inv (handlePartDetected code w).
Proof.
  intros Hs. destruct (accepts w code) eqn:Ha.
  - destruct (current w) as [o|] eqn:Hc.
    2:{ unfold accepts in Ha. rewrite Hc in Ha. by rewrite andb_false_r in Ha. }
    rewrite (handlePartDetected_accepted w code o) by done. cbn zeta.
    case_bool_decide.
    + by apply summary_inv_showSummary.
    + by apply summary_inv_elsewhere.
  - apply summary_inv_elsewhere. intros d.
    destruct (handlePartDetected_rejected w code Ha) as (-> & _). apply Hs.
Qed.

Lemma summary_inv_active w :
  summary_inv w → quaggaActive w = true → ∀ d, screen w ≠ Summary d.
Proof.
  unfold summary_inv. intros H Hq d Hs. rewrite Hs in H.
  destruct H as [H _]. congruence.
Qed.

Lemma summary_inv_onDetected code w cb :
  summary_inv w → summary_inv (onDetected code w cb).
Proof.
  intros H. unfold onDetected.
  destruct (quaggaActive w) eqn:Hq; cbn [negb]; [|done].
  destruct (truthy code); [|done].
  destruct cb; [apply summary_inv_handleOrderDetected|].
  apply summary_inv_handlePartDetected. intros d. wsimpl.
  by apply summary_inv_active.
Qed.

Lemma summary_inv_publish code w : summary_inv w → summary_inv (publish code w).
Proof.
  unfold publish. generalize (subscribers w) as cbs. intros cbs. revert w.
  induction cbs as [|cb cbs IH]; intros w H; simpl; [done|].
  by apply IH, summary_inv_onDetected.
Qed.

Lemma summary_inv_importComplete data w w0 :
  summary_inv w0 → screen w = screen w0 → quaggaActive w = quaggaActive w0 →
  currentOrder w = currentOrder w0 → scannedParts w = scannedParts w0 →
  heap w = heap w0 → summary_inv (importComplete data w).
Proof.
  intros H ?????. unfold importComplete. destruct (normalize _ _).
  - by apply summary_inv_elsewhere.
  - revert H. apply summary_inv_same; wsimpl; congruence.
Qed.

Lemma summary_inv_step e w : summary_inv w → summary_inv (step e w).
Proof.
  intros H. unfold step.
  destruct e; destruct (screen w) as [| | | | | |[]|] eqn:Hs; try done;
    try (destruct (pendingParses w) as [|n]; [done|]);
    first
      [ by apply summary_inv_publish
      | by apply summary_inv_showOrderScan
      | by (eapply summary_inv_importComplete; [exact H|by wsimpl..])
      | by (unfold manualOrder; destruct (truthy _); cbn [negb];
            [apply summary_inv_handleOrderDetected
            |apply summary_inv_elsewhere; wsimpl; rewrite Hs])
      | by (unfold manualPart; destruct (truthy _); cbn [negb];
            [apply summary_inv_handlePartDetected; rewrite Hs
            |apply summary_inv_elsewhere; wsimpl; rewrite Hs])
      | by (unfold cancelParts; apply summary_inv_showOrderScan)
      | by (unfold markPacked; repeat case_match;
            [apply summary_inv_elsewhere
            |revert H; apply summary_inv_same; by wsimpl..])
      | by (unfold login; destruct (truthy _); cbn [negb];
            apply summary_inv_elsewhere; wsimpl; rewrite ?Hs)
      | by (revert H; apply summary_inv_same; by wsimpl)
      | by apply summary_inv_elsewhere ].
Qed.

Lemma summary_inv_init store : summary_inv (init store).
Proof.
  apply summary_inv_elsewhere. intros d.
  unfold init, loadDatabase, boot, install, saveDatabase, showHome, showLogin.
  repeat case_match; by wsimpl.
Qed.





Lemma step_ClickMarkPacked now w :
  screen w = Summary false → step (ClickMarkPacked now) w = markPacked now w.
Proof. intros H. unfold step. by rewrite H. Qed.

(** Selecting an order makes it the current order, found by its id. *)
Lemma current_in_db_selected code w l o :
  find_order (heap w) code (orders (db w)) = Some (l, o) →
  status o ≠ Packed →
  current_in_db (handleOrderDetected code w).
Proof.
  intros Hf Hst. unfold handleOrderDetected. rewrite Hf.
  rewrite bool_decide_eq_false_2 by done.
  pose proof (find_order_Some _ _ _ _ _ Hf) as (_ & Hl & Hid).
  unfold showPartScan, current_in_db, current. wsimpl.
  cbn [mbind option_bind]. rewrite Hl.
  unfold startScanner. destruct cameraAvailable; wsimpl; cbn [mbind option_bind].
  all: rewrite Hl; congruence.
Qed.

Lemma current_in_db_handlePartDetected code w :
  current_in_db w → current_in_db (handlePartDetected code w).
Proof.
  unfold current_in_db.
  rewrite current_handlePartDetected, currentOrder_handlePartDetected,
    heap_handlePartDetected.
  assert (db (handlePartDetected code w) = db w) as ->; [|done].
  unfold handlePartDetected, showSummary, stopScanner, current.
  repeat case_match; by wsimpl.
Qed.

(** The effect of the mark-packed button on the current order. *)
Lemma markPacked_current (w : World) (now : jsstring) (l : nat) (o : Order) :
  currentOrder w = Some l → heap w !! l = Some o →
  let o' := packed o now (user w) in
  let w' := markPacked now w in
  heap w' = <[l := o']> (heap w) ∧ db w' = db w ∧
  heap w' !! l = Some o' ∧ current w' = Some o' ∧
  localStorage w' !! dbKey = Some (JSON_stringify (db_orders w')) ∧
  screen w' = Home ∧ alerts w' = OrderMarkedPacked :: alerts w.
Proof.
  intros Hc Hl o' w'.
  assert (markPacked now w = showHome (alert OrderMarkedPacked
    (saveDatabase (set_heap (<[l := o']> (heap w)) w)))) as E.
  { unfold markPacked, current. rewrite Hc. cbn [mbind option_bind]. by rewrite Hl. }
  subst w'. rewrite E. unfold showHome, saveDatabase, current, db_orders. wsimpl.
  assert (<[l := o']> (heap w) !! l = Some o') as Hl'.
  { apply list_lookup_insert_eq. by eapply lookup_lt_Some. }
  split_and!; try done.
  - rewrite Hc. cbn [mbind option_bind]. done.
  - by rewrite lookup_insert_eq.
Qed.

(** When the database resolves the current order by its id, it
    resolves the packed order afterwards. *)
Lemma markPacked_in_db (w : World) (now : jsstring) (l : nat) (o : Order) :
  currentOrder w = Some l →
  find_order (heap w) (orderId o) (orders (db w)) = Some (l, o) →
  let o' := packed o now (user w) in
  let w' := markPacked now w in
  o' ∈ db_orders w' ∧
  find_order (heap w') (orderId o) (orders (db w')) = Some (l, o').
Proof.
  intros Hc Hf o' w'.
  pose proof (find_order_Some _ _ _ _ _ Hf) as (Hin & Hl & _).
  destruct (markPacked_current w now l o Hc Hl) as (Hh & Hd & Hl' & _).
  subst w'. unfold db_orders. rewrite Hh, Hd. rewrite Hh in Hl'. split.
  - apply list_elem_of_omap. by exists l.
  - by apply (find_order_update _ _ _ _ o).
Qed.

(** An order that is packed is refused when its id is submitted. *)
Lemma handleOrderDetected_packed code w l o :
  find_order (heap w) code (orders (db w)) = Some (l, o) → status o = Packed →
  handleOrderDetected code w = showOrderScan (alert OrderAlreadyPacked w).
Proof.
  intros Hf Hs. unfold handleOrderDetected. rewrite Hf.
  by rewrite bool_decide_eq_true_2.
Qed.


(** ** Cancelling and selecting *)

Lemma step_ClickCancelParts w :
  screen w = PartScan → step ClickCancelParts w = cancelParts w.
Proof. intros H. unfold step. by rewrite H. Qed.

(** Selecting a pending order starts its scan from nothing. *)
Lemma handleOrderDetected_selected code w l o :
  find_order (heap w) code (orders (db w)) = Some (l, o) → status o ≠ Packed →
  let w' := handleOrderDetected code w in
  currentOrder w' = Some l ∧ scannedParts w' = [] ∧ screen w' = PartScan ∧
  alerts w' = alerts w.
Proof.
  intros Hf Hst. cbn zeta. unfold handleOrderDetected. rewrite Hf.
  rewrite bool_decide_eq_false_2 by done.
  pose proof (find_order_Some _ _ _ _ _ Hf) as (_ & Hl & _).
  unfold showPartScan, current. wsimpl. cbn [mbind option_bind]. rewrite Hl.
  unfold startScanner. by destruct cameraAvailable.
Qed.

(** C4, as the code has it.  The cancel button of the part screen stops
    the scanner and shows the order screen; [currentOrder] and
    [scannedParts] stay as they were, as do the database and its
    orders.  The scan progress is reset when an order is selected:
    a submitted code that finds a pending order makes that order the
    current one and empties [scannedParts]. *)
Theorem cancelScan_returns_to_order_selection (w : World) :
  (screen w = PartScan →
     let w' := step ClickCancelParts w in
     screen w' = OrderScan ∧ quaggaActive w' = cameraAvailable ∧
     currentOrder w' = currentOrder w ∧ scannedParts w' = scannedParts w ∧
     db w' = db w ∧ heap w' = heap w ∧ alerts w' = alerts w) ∧
  (∀ code l o,
     find_order (heap w) code (orders (db w)) = Some (l, o) → status o ≠ Packed →
     let w' := handleOrderDetected code w in
     currentOrder w' = Some l ∧ scannedParts w' = [] ∧ screen w' = PartScan).
Proof.
  split.
  - intros Hs. cbn zeta. rewrite step_ClickCancelParts by done.
    unfold cancelParts, showOrderScan, stopScanner, startScanner.
    by destruct cameraAvailable.
  - intros code l o Hf Hst.
    by destruct (handleOrderDetected_selected code w l o Hf Hst) as (? & ? & ? & _).
Qed.

(** ** Submitting an order code by hand *)

Lemma step_ClickManualOrder value w :
  screen w = OrderScan → step (ClickManualOrder value) w = manualOrder value w.
Proof. intros H. unfold step. by rewrite H. Qed.

Lemma handleOrderDetected_not_found code w :
  find_order (heap w) code (orders (db w)) = None →
  handleOrderDetected code w = showOrderScan (alert (OrderNotFound code) w).
Proof. intros Hf. unfold handleOrderDetected. by rewrite Hf. Qed.

(** C5, as the code has it for manual entry.  The text of the order
    field is trimmed.  If nothing is left, the user is asked for an
    order number and nothing else happens.  Otherwise the trimmed text
    is compared with the ids of the orders of the database: when none
    is equal to it, the not-found notice is raised and the order screen
    stays, with database and scan progress untouched; when some order
    has that id, the first such order is taken, refused with the
    already-packed notice if it is packed and selected for part
    scanning otherwise. *)
Theorem manual_order_code_lookup (w : World) (value : jsstring) :
  screen w = OrderScan →
  let w' := step (ClickManualOrder value) w in
  (trim value = [] → w' = alert EnterOrderNumber w) ∧
  (trim value ≠ [] → (∀ o, o ∈ db_orders w → orderId o ≠ trim value) →
     alerts w' = OrderNotFound (trim value) :: alerts w ∧ screen w' = OrderScan ∧
     currentOrder w' = currentOrder w ∧ scannedParts w' = scannedParts w ∧
     db w' = db w ∧ heap w' = heap w) ∧
  (trim value ≠ [] → (∃ o, o ∈ db_orders w ∧ orderId o = trim value) →
     ∃ l o, find_order (heap w) (trim value) (orders (db w)) = Some (l, o) ∧
       orderId o = trim value ∧ o ∈ db_orders w ∧
       if bool_decide (status o = Packed)
       then alerts w' = OrderAlreadyPacked :: alerts w ∧ screen w' = OrderScan ∧
            currentOrder w' = currentOrder w ∧ scannedParts w' = scannedParts w
       else alerts w' = alerts w ∧ screen w' = PartScan ∧
            currentOrder w' = Some l ∧ scannedParts w' = []).
Proof.
  intros Hs. cbn zeta. rewrite step_ClickManualOrder by done.
  unfold manualOrder. split_and!.
  - by intros ->.
  - intros Hv Hno. apply truthy_nonempty in Hv. rewrite Hv. cbn [negb].
    rewrite handleOrderDetected_not_found.
    2:{ apply find_order_None. exact Hno. }
    unfold showOrderScan, stopScanner, startScanner.
    by destruct cameraAvailable.
  - intros Hv (o0 & Hin0 & Hid0).
    apply truthy_nonempty in Hv. rewrite Hv. cbn [negb].
    destruct (find_order (heap w) (trim value) (orders (db w)))
      as [[l o]|] eqn:Hf.
    2:{ exfalso. by eapply (proj1 (find_order_None _ _ _) Hf). }
    pose proof (find_order_Some _ _ _ _ _ Hf) as (Hl & Hh & Hid).
    exists l, o. split_and!; [done..| |].
    { apply list_elem_of_omap. by exists l. }
    case_bool_decide as Hst.
    + rewrite (handleOrderDetected_packed _ _ l o) by done.
      unfold showOrderScan, stopScanner, startScanner.
      by destruct cameraAvailable.
    + by destruct (handleOrderDetected_selected (trim value) (stopScanner w)
                     l o Hf Hst) as (? & ? & ? & ?).
Qed.

(** ** Loading the database *)

(** C2, as the code has it.  Without a stored database, or with an
    empty stored text, [loadDatabase] installs the sample order and
    stores it.  With a stored text that does not parse it installs the
    database without orders, writes a warning to the console, raises no
    notification and leaves the store alone. *)
Theorem loadDatabase_fallbacks (w : World) :
  (localStorage w !! dbKey = None ∨ localStorage w !! dbKey = Some [] →
     db_orders (loadDatabase w) = [sampleOrder] ∧
     localStorage (loadDatabase w) !! dbKey = Some (JSON_stringify [sampleOrder]) ∧
     alerts (loadDatabase w) = alerts w ∧ console (loadDatabase w) = console w) ∧
  (∀ s, localStorage w !! dbKey = Some s → s ≠ [] → JSON_parse s = None →
     db (loadDatabase w) = mkDatabase [] ∧ db_orders (loadDatabase w) = [] ∧
     console (loadDatabase w) = WarnParseFailed :: console w ∧
     alerts (loadDatabase w) = alerts w ∧
     localStorage (loadDatabase w) = localStorage w).
Proof.
  split.
  - intros H.
    assert (loadDatabase w = saveDatabase (install [sampleOrder] w)) as ->.
    { unfold loadDatabase. by destruct H as [-> | ->]. }
    assert (db_orders (saveDatabase (install [sampleOrder] w)) = [sampleOrder]) as E.
    { rewrite <- (db_orders_install [sampleOrder] w) at 2. done. }
    split_and!; [done| |done..].
    unfold saveDatabase. wsimpl. rewrite lookup_insert_eq.
    by rewrite db_orders_install.
  - intros s Hs Hne Hp. unfold loadDatabase. rewrite Hs.
    destruct s as [|c s]; [done|]. by rewrite Hp.
Qed.

(** ** Importing rows that are all skipped *)

Lemma add_rows_all_skipped cols (data : list Row) m :
  Forall (λ row, resolve cols row = None) data → add_rows cols data m = Some m.
Proof.
  induction 1 as [|row data Hrow _ IH]; simpl; [done|].
  unfold add_row. rewrite Hrow. done.
Qed.

(** C10. When the parser hands over rows that are all skipped (for no
    row do the order id and the part id both come out non-empty after
    trimming), the import computes no orders; the database then held
    is replaced by one without orders, whatever it held before, that
    empty database is stored, the success notice is raised and the home
    screen is shown. *)
Theorem import_of_skipped_rows_empties_database (w : World) (data : list Row) :
  pendingParses w ≠ 0 →
  Forall (λ row, resolve (columns toLowerCase data) row = None) data →
  let w' := step (CsvComplete data) w in
  normalize toLowerCase data = Some [] ∧
  db w' = mkDatabase [] ∧ db_orders w' = [] ∧
  localStorage w' !! dbKey = Some (JSON_stringify []) ∧
  alerts w' = DatabaseLoaded :: alerts w ∧ screen w' = Home.
Proof.
  intros Hp Hall.
  assert (normalize toLowerCase data = Some []) as Hn.
  { unfold normalize. by rewrite add_rows_all_skipped. }
  assert (step (CsvComplete data) w
          = importComplete data (set_pendingParses (pred (pendingParses w)) w)) as E.
  { unfold step. destruct (pendingParses w); [done|].
    by destruct (screen w) as [| | | | | |[]|]. }
  cbn zeta. rewrite E. unfold importComplete. rewrite Hn.
  unfold showHome, saveDatabase, db_orders, install. wsimpl.
  by rewrite lookup_insert_eq.
Qed.

(** ** A whole fulfilment: select, scan, pack *)

Lemma current_in_db_parts codes w :
  current_in_db w →
  current_in_db (foldl (λ w c, handlePartDetected c w) w codes).
Proof.
  revert w. induction codes as [|c codes IH]; intros w H; simpl; [done|].
  by apply IH, current_in_db_handlePartDetected.
Qed.

Lemma handleOrderDetected_to_part_screen code w :
  screen (handleOrderDetected code w) = PartScan →
  ∃ l o, find_order (heap w) code (orders (db w)) = Some (l, o) ∧
         status o ≠ Packed.
Proof.
  unfold handleOrderDetected.
  destruct (find_order _ _ _) as [[l o]|] eqn:Hf.
  - case_bool_decide as Hst; [|by eauto].
    unfold showOrderScan. by rewrite screen_startScanner.
  - unfold showOrderScan. by rewrite screen_startScanner.
Qed.

(** From any world: when a submitted order code opens the part screen
    and the part codes submitted next lead to a summary with the button
    enabled, the click packs the very order that the code selected, the
    stored database shows it packed, and the same code is refused from
    then on. *)
Lemma select_scan_pack (w0 : World) (code now : jsstring) (codes : list jsstring) :
  let w1 := handleOrderDetected code w0 in
  let w2 := foldl (λ w c, handlePartDetected c w) w1 codes in
  let w3 := step (ClickMarkPacked now) w2 in
  screen w1 = PartScan → screen w2 = Summary false →
  ∃ l o, find_order (heap w0) code (orders (db w0)) = Some (l, o) ∧
    current w3 = Some (packed o now (user w2)) ∧
    packed o now (user w2) ∈ db_orders w3 ∧
    localStorage w3 !! dbKey = Some (JSON_stringify (db_orders w3)) ∧
    handleOrderDetected code w3 = showOrderScan (alert OrderAlreadyPacked w3).
Proof.
  intros w1 w2 w3 Hs1 Hs2.
  destruct (handleOrderDetected_to_part_screen code w0 Hs1) as (l & o & Hf & Hst).
  exists l, o. split; [done|].
  pose proof (find_order_Some _ _ _ _ _ Hf) as (_ & Hl & Hid).
  assert (current_in_db w2) as Hdb
    by by eapply current_in_db_parts, current_in_db_selected.
  assert (currentOrder w2 = Some l ∧ heap w2 = heap w0 ∧ db w2 = db w0)
    as (Hc2 & Hh2 & Hd2).
  { subst w2. clear Hs2 Hdb.
    assert (currentOrder w1 = Some l ∧ heap w1 = heap w0 ∧ db w1 = db w0) as H1.
    { subst w1. unfold handleOrderDetected. rewrite Hf.
      rewrite bool_decide_eq_false_2 by done.
      unfold showPartScan, current. wsimpl. cbn [mbind option_bind]. rewrite Hl.
      unfold startScanner. by destruct cameraAvailable. }
    clear Hs1. revert H1. generalize w1. clear w1 w3.
    induction codes as [|c codes IH]; intros w (Hc & Hh & Hd); simpl; [done|].
    apply IH.
    rewrite currentOrder_handlePartDetected, heap_handlePartDetected.
    split_and!; [done..|]. rewrite <- Hd.
    unfold handlePartDetected, showSummary, stopScanner, current.
    repeat case_match; by wsimpl. }
  subst w3. rewrite step_ClickMarkPacked by done.
  assert (find_order (heap w2) (orderId o) (orders (db w2)) = Some (l, o)) as Hf2
    by by rewrite Hh2, Hd2, Hid.
  assert (heap w2 !! l = Some o) as Hl2 by by rewrite Hh2.
  destruct (markPacked_current w2 now l o Hc2 Hl2)
    as (_ & _ & _ & Hcur & Hst' & _).
  destruct (markPacked_in_db w2 now l o Hc2 Hf2) as (Hin & Hf3).
  split_and!; [done..|].
  apply (handleOrderDetected_packed _ _ l (packed o now (user w2))); [|done].
  by rewrite <- Hid.
Qed.

(** ** The import groups rows by order id *)

Lemma trim_if_truthy_truthy v :
is_truthy (trim_if_truthy v) = true →
∃ s, trim_if_truthy v = Some (trim s) ∧ trim s ≠ [].
Proof.
unfold trim_if_truthy. destruct (is_truthy v) eqn:Hv.
- destruct v as [s|]; [|done]. simpl. intros H. exists s. split; [done|].
  by destruct (trim s).
- by rewrite Hv.
Qed.

(** The ids that [resolve] returns are what is left of two cells after
  trimming, and something is left of both. *)
Lemma resolve_Some cols row id part :
resolve cols row = Some (id, part) →
id ≠ [] ∧ part ≠ [] ∧ trim id = id ∧ trim part = part.
Proof.
unfold resolve. cbn zeta.
match goal with |- context [is_truthy (trim_if_truthy ?a)] =>
  destruct (is_truthy (trim_if_truthy a)) eqn:Ha end; cbn [negb orb]; [|done].
match goal with |- context [negb (is_truthy (trim_if_truthy ?b))] =>
  destruct (is_truthy (trim_if_truthy b)) eqn:Hb end; cbn [negb]; [|done].
apply trim_if_truthy_truthy in Ha as (s & -> & Hs).
apply trim_if_truthy_truthy in Hb as (t & -> & Ht).
cbn [default]. intros [= <- <-]. by rewrite !trim_idemp.
Qed.

Lemma resolved_snoc cols done row :
resolved cols (done ++ [row])
= resolved cols done ++ match resolve cols row with Some p => [p] | None => [] end.
Proof.
unfold resolved. rewrite omap_app. simpl. by destruct (resolve cols row).
Qed.

Lemma parts_for_snoc cols id done row :
parts_for cols id (done ++ [row])
= parts_for cols id done ++
  match resolve cols row with
  | Some (id', p) => if decide (id' = id) then [p] else []
  | None => []
  end.
Proof.
unfold parts_for. rewrite resolved_snoc, filter_app, fmap_app. f_equal.
destruct (resolve cols row) as [[id' p]|]; [|done].
rewrite filter_cons. simpl. by destruct (decide (id' = id)).
Qed.

Lemma first_row_snoc cols id done row :
first_row cols id (done ++ [row])
= match first_row cols id done with
  | Some r => Some r
  | None => if bool_decide (fst <$> resolve cols row = Some id)
            then Some row else None
  end.
Proof.
unfold first_row. induction done as [|r done IH]; cbn [List.find app]; [done|].
destruct (bool_decide (fst <$> resolve cols r = Some id)); [done | exact IH].
Qed.

Lemma first_row_None cols id done :
first_row cols id done = None ↔ id ∉ (resolved cols done).*1.
Proof.
unfold first_row, resolved. induction done as [|r done IH].
- split; [|done]. intros _ H. by apply elem_of_nil in H.
- cbn [List.find].
  change (omap (resolve cols) (r :: done))
    with (match resolve cols r with
          | Some y => y :: omap (resolve cols) done
          | None => omap (resolve cols) done
          end).
  destruct (resolve cols r) as [[id' p]|] eqn:Hr.
  + cbn [fmap option_fmap option_map fst].
    destruct (decide (id' = id)) as [->|Hne].
    * rewrite bool_decide_eq_true_2 by done. split; [done|].
      intros H. exfalso. apply H. rewrite fmap_cons. left.
    * rewrite bool_decide_eq_false_2 by congruence.
      rewrite fmap_cons, not_elem_of_cons, IH. cbn [fst]. split; [by intros ?; split; [congruence|]|by intros [_ ?]].
  + rewrite bool_decide_eq_false_2 by done. exact IH.
Qed.

Lemma parts_for_fresh cols id done :
id ∉ (resolved cols done).*1 → parts_for cols id done = [].
Proof.
unfold parts_for. intros H.
induction (resolved cols done) as [|[id' p] l IH]; [done|].
rewrite filter_cons. simpl in *. apply not_elem_of_cons in H as [Hne Hl].
rewrite decide_False by done. by apply IH.
Qed.

Lemma elem_of_first_seen ids id : id ∈ first_seen ids ↔ id ∈ ids.
Proof.
unfold first_seen. by rewrite elem_of_reverse, elem_of_remove_dups, elem_of_reverse.
Qed.

Lemma first_seen_snoc ids id :
first_seen (ids ++ [id])
= if decide (id ∈ ids) then first_seen ids else first_seen ids ++ [id].
Proof.
unfold first_seen. rewrite reverse_snoc. cbn [remove_dups].
destruct (decide_rel _ id (reverse ids)) as [Hin|Hin].
- rewrite decide_True; [done|]. by apply elem_of_reverse.
- rewrite decide_False; [|by rewrite <- elem_of_reverse].
  by rewrite reverse_cons.
Qed.

Lemma NoDup_first_seen ids : NoDup (first_seen ids).
Proof. unfold first_seen. rewrite reverse_Permutation. apply NoDup_remove_dups. Qed.

Lemma push_part_keys id part (m : OrdersMap) : (push_part id part m).*1 = m.*1.
Proof.
unfold push_part. rewrite <- list_fmap_compose.
apply list_fmap_ext. intros i [k o] _. simpl. by case_bool_decide.
Qed.

Lemma elem_of_push_part id part (m : OrdersMap) k o' :
(k, o') ∈ push_part id part m ↔
∃ o, (k, o) ∈ m ∧
     o' = if decide (k = id) then with_parts o (parts o ++ [part]) else o.
Proof.
unfold push_part. rewrite list_elem_of_fmap. split.
- intros ([k0 o] & E & Hin). simpl in E. exists o.
  case_bool_decide as Hk; injection E as -> ->.
  + subst. by rewrite decide_True.
  + by rewrite decide_False.
- intros (o & Hin & ->). exists (k, o). split; [|done]. simpl.
  case_bool_decide as Hk; [by rewrite decide_True | by rewrite decide_False].
Qed.

Lemma grouped_nil cols : grouped cols [] [].
Proof.
unfold grouped. split_and!; [apply NoDup_nil_2|done| |].
- intros id H. by apply elem_of_nil in H.
- intros id o H. by apply elem_of_nil in H.
Qed.

(** One round of [data.forEach] keeps [ordersMap] grouped. *)
Lemma grouped_add_row cols done row m m' :
grouped cols done m → add_row cols row m = Some m' →
grouped cols (done ++ [row]) m'.
Proof.
intros (Hnd & Hkeys & Hinh & Hent). unfold add_row.
destruct (resolve cols row) as [[id part]|] eqn:Hr.
2:{ intros [= <-]. unfold grouped. rewrite resolved_snoc, Hr, app_nil_r.
    split_and!; [done..|].
    intros id o Hin. destruct (Hent id o Hin) as (row0 & Hf & ->).
    exists row0. rewrite first_row_snoc, Hf, parts_for_snoc, Hr, app_nil_r. done. }
assert (id ∈ m.*1 ↔ id ∈ (resolved cols done).*1) as Hiff
  by by rewrite Hkeys, elem_of_first_seen.
unfold own. case_bool_decide as Hown.
- intros [= <-]. unfold grouped.
  rewrite push_part_keys, resolved_snoc, Hr, fmap_app. cbn [fmap list_fmap fst].
  rewrite first_seen_snoc, decide_True by by apply Hiff.
  split_and!; [done..|].
  intros k o' (o & Hin & ->)%elem_of_push_part.
  destruct (Hent k o Hin) as (row0 & Hf & ->).
  exists row0. rewrite first_row_snoc, Hf, parts_for_snoc, Hr.
  split; [done|]. destruct (decide (k = id)) as [->|Hne].
  + by rewrite decide_True.
  + rewrite decide_False by done. by rewrite app_nil_r.
- destruct (inherited id) eqn:Hi; [done|]. intros [= <-]. unfold grouped.
  rewrite push_part_keys, resolved_snoc, Hr, !fmap_app. cbn [fmap list_fmap fst].
  rewrite first_seen_snoc, decide_False by by rewrite <- Hiff.
  split_and!.
  + apply NoDup_app. split_and!; [done| |apply NoDup_singleton].
    intros x Hx ->%list_elem_of_singleton. done.
  + by rewrite Hkeys.
  + intros k [Hk| ->%list_elem_of_singleton]%elem_of_app; [by apply Hinh|done].
  + intros k o' (o & Hin & ->)%elem_of_push_part.
    apply elem_of_app in Hin as [Hin|Hin%list_elem_of_singleton].
    * destruct (Hent k o Hin) as (row0 & Hf & ->).
      assert (k ≠ id) as Hne.
      { intros ->. apply Hown. apply list_elem_of_fmap. by exists (id, with_parts
          (new_order cols row0 id) (parts_for cols id done)). }
      exists row0. rewrite first_row_snoc, Hf, parts_for_snoc, Hr.
      rewrite !decide_False by done. by rewrite app_nil_r.
    * injection Hin as -> ->. exists row.
      assert (id ∉ (resolved cols done).*1) as Hfresh by by rewrite <- Hiff.
      rewrite first_row_snoc, (proj2 (first_row_None _ _ _) Hfresh), Hr.
      cbn [fmap option_fmap option_map fst].
      rewrite bool_decide_eq_true_2 by done.
      rewrite parts_for_snoc, Hr, parts_for_fresh by done.
      by rewrite !decide_True.
Qed.

(** The whole loop. *)
Lemma grouped_add_rows cols data done m m' :
grouped cols done m → add_rows cols data m = Some m' →
grouped cols (done ++ data) m'.
Proof.
revert done m. induction data as [|row data IH]; intros done m Hg; simpl.
- intros [= <-]. by rewrite app_nil_r.
- destruct (add_row cols row m) as [m1|] eqn:Hrow; [|done]. simpl.
  intros H. replace (done ++ row :: data) with ((done ++ [row]) ++ data)
    by by rewrite <- app_assoc.
  eapply IH; [|done]. by eapply grouped_add_row.
Qed.

(** ** [Object.values] *)

Lemma insert_by_index_perm x l : insert_by_index x l ≡ₚ x :: l.
Proof.
induction l as [|y l IH]; simpl; [done|].
destruct (x.1 <=? y.1)%N; [done|]. rewrite IH. apply Permutation_swap.
Qed.

Lemma sort_by_index_perm l : foldr insert_by_index [] l ≡ₚ l.
Proof.
induction l as [|x l IH]; simpl; [done|].
by rewrite insert_by_index_perm, IH.
Qed.

Lemma insert_by_index_sorted x l :
StronglySorted N.le l.*1 → StronglySorted N.le (insert_by_index x l).*1.
Proof.
induction l as [|y l IH]; simpl; intros Hs.
- repeat constructor.
- apply StronglySorted_inv in Hs as [Hs Hall].
  destruct (x.1 <=? y.1)%N eqn:Hxy.
  + apply N.leb_le in Hxy. rewrite !fmap_cons. constructor.
    * by constructor.
    * constructor; [done|]. eapply Forall_impl; [exact Hall|].
      intros z Hz. simpl in Hz. by etrans.
  + apply N.leb_gt in Hxy. rewrite fmap_cons. constructor; [by apply IH|].
    rewrite (insert_by_index_perm x l), fmap_cons. constructor; [|done].
    simpl. lia.
Qed.

Lemma sort_by_index_sorted l : StronglySorted N.le (foldr insert_by_index [] l).*1.
Proof.
induction l as [|x l IH]; simpl; [constructor|]. by apply insert_by_index_sorted.
Qed.

Lemma Object_values_perm (m : OrdersMap) : Object_values m ≡ₚ m.*2.
Proof.
unfold Object_values. cbn zeta. rewrite sort_by_index_perm.
induction m as [|[k o] m IH]; [done|].
cbn [omap list_omap filter list_filter fst snd].
destruct (array_index k) as [n|] eqn:Hk; cbn [fmap option_fmap option_map].
- rewrite decide_False by done. rewrite !fmap_cons. cbn [snd app].
  by rewrite IH.
- rewrite decide_True by done. rewrite !fmap_cons. cbn [snd].
  rewrite <- Permutation_middle. by rewrite IH.
Qed.

(** ** What the import returns *)

Lemma normalize_Some data os :
normalize toLowerCase data = Some os →
∃ m, grouped (columns toLowerCase data) data m ∧ os = Object_values m.
Proof.
unfold normalize.
destruct (add_rows _ data []) as [m|] eqn:Hm; [|done].
intros [= <-]. exists m. split; [|done].
by apply (grouped_add_rows _ data [] [] m (grouped_nil _)).
Qed.

Lemma first_row_Some cols id data row0 :
first_row cols id data = Some row0 →
row0 ∈ data ∧ ∃ p, resolve cols row0 = Some (id, p).
Proof.
unfold first_row. intros [Hin Hb]%List.find_some.
split; [by apply list_elem_of_In|].
apply bool_decide_eq_true in Hb.
destruct (resolve cols row0) as [[id' p]|]; [|done].
injection Hb as ->. by exists p.
Qed.

Lemma elem_of_parts_for cols id data p :
p ∈ parts_for cols id data ↔ (id, p) ∈ resolved cols data.
Proof.
unfold parts_for. rewrite list_elem_of_fmap. split.
- intros ([id' p'] & -> & [Hid Hin]%list_elem_of_filter). simpl in *. by subst.
- intros Hin. exists (id, p). split; [done|]. by apply list_elem_of_filter.
Qed.

Lemma elem_of_resolved cols data id p :
(id, p) ∈ resolved cols data ↔ ∃ row, row ∈ data ∧ resolve cols row = Some (id, p).
Proof. unfold resolved. apply list_elem_of_omap. Qed.

Lemma grouped_entry cols data m id o :
grouped cols data m → (id, o) ∈ m →
orderId o = id ∧ parts o = parts_for cols id data ∧
∃ row0 p, first_row cols id data = Some row0 ∧
          resolve cols row0 = Some (id, p) ∧ row0 ∈ data ∧
          o = with_parts (new_order cols row0 id) (parts_for cols id data).
Proof.
intros (_ & _ & _ & Hent) Hin.
destruct (Hent id o Hin) as (row0 & Hf & ->).
destruct (first_row_Some _ _ _ _ Hf) as (Hrow & p & Hr).
split_and!; [done..|]. by exists row0, p.
Qed.

Lemma grouped_ids cols data (m : OrdersMap) :
grouped cols data m → orderId <$> m.*2 = m.*1.
Proof.
intros Hg.
assert (∀ id o, (id, o) ∈ m → orderId o = id) as H
  by (intros id o Hin; by destruct (grouped_entry _ _ _ _ _ Hg Hin)).
clear Hg. induction m as [|[k o] m IH]; [done|].
rewrite !fmap_cons. cbn [fst snd]. f_equal.
- apply H. left.
- apply IH. intros id o' Hin. apply H. by right.
Qed.

Lemma elem_of_Object_values (m : OrdersMap) o :
o ∈ Object_values m ↔ ∃ id, (id, o) ∈ m.
Proof.
rewrite Object_values_perm, list_elem_of_fmap. split.
- intros ([id o'] & -> & Hin). by exists id.
- intros (id & Hin). by exists (id, o).
Qed.

(** X1. The orders an import returns have pairwise distinct ids; each id
  is not empty and is free of surrounding white space, each order has
  at least one part, its parts are not empty and trimmed, and it is
  pending with no packing time or packer. *)
Theorem import_orders_well_formed (data : list Row) (os : list Order) :
normalize toLowerCase data = Some os →
NoDup (orderId <$> os) ∧
∀ o, o ∈ os →
  orderId o ≠ [] ∧ trim (orderId o) = orderId o ∧
  parts o ≠ [] ∧ Forall (λ p, p ≠ [] ∧ trim p = p) (parts o) ∧
  status o = Pending ∧ packedAt o = None ∧ packedBy o = None.
Proof.
intros (m & Hg & ->)%normalize_Some. split.
- rewrite Object_values_perm, (grouped_ids _ _ _ Hg). by destruct Hg.
- intros o (id & Hin)%elem_of_Object_values.
  destruct (grouped_entry _ _ _ _ _ Hg Hin)
    as (Hid & Hparts & row0 & p & _ & Hr & Hrow & ->).
  destruct (resolve_Some _ _ _ _ Hr) as (Hne & _ & Htrim & _).
  cbn [orderId parts status packedAt packedBy with_parts new_order] in *.
  split_and!; try done.
  + intros Hnil.
    assert (p ∈ parts_for (columns toLowerCase data) id data) as Hp
      by (apply elem_of_parts_for, elem_of_resolved; eauto).
    rewrite Hnil in Hp. by apply elem_of_nil in Hp.
  + apply Forall_forall. intros q Hq.
    apply elem_of_parts_for, elem_of_resolved in Hq as (row & _ & Hq).
    by destruct (resolve_Some _ _ _ _ Hq) as (_ & ? & _ & ?).
Qed.

(** X2. The parts of an imported order are the part ids of all the rows
  of that order id, in row order, repeats kept; and no row that is not
  skipped is lost: its part is a part of the order with its id. *)
Theorem import_accumulates_parts (data : list Row) (os : list Order) :
normalize toLowerCase data = Some os →
(∀ o, o ∈ os → parts o = parts_for (columns toLowerCase data) (orderId o) data) ∧
(∀ row id p, row ∈ data → resolve (columns toLowerCase data) row = Some (id, p) →
   ∃ o, o ∈ os ∧ orderId o = id ∧ p ∈ parts o).
Proof.
intros (m & Hg & ->)%normalize_Some. split.
- intros o (id & Hin)%elem_of_Object_values.
  by destruct (grouped_entry _ _ _ _ _ Hg Hin) as (-> & -> & _).
- intros row id p Hrow Hr.
  assert ((id, p) ∈ resolved (columns toLowerCase data) data) as Hin
    by (apply elem_of_resolved; eauto).
  assert (id ∈ m.*1) as (o & Ho)%list_elem_of_fmap.
  { destruct Hg as (_ & -> & _). apply elem_of_first_seen.
    apply list_elem_of_fmap. by exists (id, p). }
  destruct Ho as [-> Ho]. destruct o as [id o].
  destruct (grouped_entry _ _ _ _ _ Hg Ho) as (Hid & Hparts & _).
  exists o. split_and!; [apply elem_of_Object_values; eauto|done|].
  cbn [fst]. rewrite Hparts. by apply elem_of_parts_for.
Qed.

(** X3. The customer, project and supply date of an imported order come
  from the first row of its order id: the trimmed cell of the matched
  column, or the empty string when the cell or the column is missing.
  Later rows of the id do not change them. *)
Theorem import_takes_fields_from_first_row (data : list Row) (os : list Order) :
normalize toLowerCase data = Some os →
∀ o, o ∈ os →
  ∃ row0, first_row (columns toLowerCase data) (orderId o) data = Some row0 ∧
    customer o = Some (trimmed_or_empty
                         (get row0 (customerKey (columns toLowerCase data)))) ∧
    project o = Some (trimmed_or_empty
                        (get row0 (projectKey (columns toLowerCase data)))) ∧
    supplyDate o = Some (trimmed_or_empty
                           (get row0 (dateKey (columns toLowerCase data)))).
Proof.
intros (m & Hg & ->)%normalize_Some o (id & Hin)%elem_of_Object_values.
destruct (grouped_entry _ _ _ _ _ Hg Hin) as (Hid & _ & row0 & p & Hf & _ & _ & ->).
exists row0. by cbn [orderId customer project supplyDate with_parts new_order].
Qed.

Lemma indexed_none (m : OrdersMap) :
(∀ k, k ∈ m.*1 → array_index k = None) →
omap (λ kv : jsstring * Order, (λ n, (n, kv.2)) <$> array_index kv.1) m = [] ∧
filter (λ kv : jsstring * Order, array_index kv.1 = None) m = m.
Proof.
induction m as [|[k o] m IH]; intros H; [done|].
cbn [omap list_omap filter list_filter fst snd].
rewrite (H k) by (rewrite fmap_cons; left).
cbn [fmap option_fmap option_map]. rewrite decide_True by done.
destruct IH as [-> IH2].
{ intros k' Hk'. apply H. rewrite fmap_cons. by right. }
split; [done|]. f_equal. exact IH2.
Qed.

Lemma named_none (m : OrdersMap) :
(∀ k, k ∈ m.*1 → is_Some (array_index k)) →
filter (λ kv : jsstring * Order, array_index kv.1 = None) m = [].
Proof.
induction m as [|[k o] m IH]; intros H; [done|].
cbn [filter list_filter fst].
destruct (H k) as [n Hn]; [rewrite fmap_cons; left|].
rewrite decide_False by (rewrite Hn; done).
apply IH. intros k' Hk'. apply H. rewrite fmap_cons. by right.
Qed.

(** X4. When no order id of the file is the decimal form of an array
  index, the imported orders come in the order in which their ids
  first occur in the file. *)
Theorem import_keeps_first_seen_order (data : list Row) (os : list Order) :
normalize toLowerCase data = Some os →
(∀ id p, (id, p) ∈ resolved (columns toLowerCase data) data → array_index id = None) →
orderId <$> os = first_seen (resolved (columns toLowerCase data) data).*1.
Proof.
intros (m & Hg & ->)%normalize_Some Hnamed.
assert (∀ k, k ∈ m.*1 → array_index k = None) as Hk.
{ intros k Hk. destruct Hg as (_ & Hkeys & _). rewrite Hkeys in Hk.
  apply elem_of_first_seen, list_elem_of_fmap in Hk as ([id p] & -> & Hin).
  by eapply Hnamed. }
unfold Object_values. cbn zeta.
destruct (indexed_none m Hk) as [-> ->]. cbn [foldr fmap list_fmap app].
rewrite (grouped_ids _ _ _ Hg). by destruct Hg as (_ & -> & _).
Qed.

(** X5. When every order id of the file is the decimal form of an array
  index (an order number such as 1001), the imported orders come in
  ascending numeric order of their ids, whatever the order of the rows. *)
Theorem import_sorts_numeric_ids (data : list Row) (os : list Order) :
normalize toLowerCase data = Some os →
(∀ id p, (id, p) ∈ resolved (columns toLowerCase data) data →
   is_Some (array_index id)) →
∃ ns, array_index ∘ orderId <$> os = Some <$> ns ∧ StronglySorted N.le ns.
Proof.
intros (m & Hg & ->)%normalize_Some Hidx.
assert (∀ k, k ∈ m.*1 → is_Some (array_index k)) as Hk.
{ intros k Hk. destruct Hg as (_ & Hkeys & _). rewrite Hkeys in Hk.
  apply elem_of_first_seen, list_elem_of_fmap in Hk as ([id p] & -> & Hin).
  by eapply Hidx. }
unfold Object_values. cbn zeta. rewrite (named_none m Hk), fmap_nil, app_nil_r.
set (idx := omap (λ kv : jsstring * Order, (λ n, (n, kv.2)) <$> array_index kv.1) m).
exists (foldr insert_by_index [] idx).*1. split; [|apply sort_by_index_sorted].
rewrite <- !list_fmap_compose. apply list_fmap_ext.
intros i [n o] Hi. cbn [compose fst snd].
assert ((n, o) ∈ idx) as Hin.
{ rewrite <- (sort_by_index_perm idx). by eapply list_elem_of_lookup_2. }
apply list_elem_of_omap in Hin as ([k o'] & Hin & Hn). cbn [fst snd] in Hn.
destruct (array_index k) as [n'|] eqn:Hk'; [|done]. injection Hn as -> ->.
by destruct (grouped_entry _ _ _ _ _ Hg Hin) as (-> & _).
Qed.

(** ** When the import throws *)

Lemma add_rows_None cols data (m : OrdersMap) :
(∀ id, id ∈ m.*1 → inherited id = false) →
add_rows cols data m = None ↔
∃ id p, (id, p) ∈ resolved cols data ∧ inherited id = true.
Proof.
revert m. induction data as [|row data IH]; intros m Hm.
- split; [done|]. intros (id & p & H & _). by apply elem_of_nil in H.
- cbn [add_rows]. unfold resolved. cbn [omap list_omap]. fold (resolved cols data).
  unfold add_row. destruct (resolve cols row) as [[id part]|] eqn:Hr.
  + unfold own. case_bool_decide as Hown.
    * cbn [mbind option_bind]. rewrite IH by by rewrite push_part_keys.
      split.
      -- intros (id' & p & Hin & Hi). exists id', p. split; [by right|done].
      -- intros (id' & p & [E|Hin]%elem_of_cons & Hi); [|by eauto].
         injection E as -> ->. rewrite (Hm id Hown) in Hi. done.
    * destruct (inherited id) eqn:Hi.
      -- cbn [mbind option_bind]. split; [|done]. intros _.
         exists id, part. split; [left|done].
      -- cbn [mbind option_bind]. rewrite IH.
         2:{ intros k. rewrite push_part_keys, fmap_app.
             intros [Hk| ->%list_elem_of_singleton]%elem_of_app; [by apply Hm|done]. }
         split.
         ++ intros (id' & p & Hin & Hi'). exists id', p. split; [by right|done].
         ++ intros (id' & p & [E|Hin]%elem_of_cons & Hi'); [|by eauto].
            injection E as -> ->. congruence.
  + cbn [mbind option_bind]. by apply IH.
Qed.

(** X6. The import fails with a [TypeError] exactly when some row that
  is not skipped has an order id that names a property every object
  inherits, such as constructor or toString. *)
Theorem import_throws_on_inherited_names (data : list Row) :
normalize toLowerCase data = None ↔
∃ id p, (id, p) ∈ resolved (columns toLowerCase data) data ∧ inherited id = true.
Proof.
unfold normalize. rewrite <- (add_rows_None _ data []).
- destruct (add_rows _ data []); [split; discriminate | done].
- intros id H. by apply elem_of_nil in H.
Qed.

(** ** The import and the world *)

Lemma step_CsvComplete data w :
step (CsvComplete data) w
= match pendingParses w with
  | S n => importComplete data (set_pendingParses n w)
  | O => w
  end.
Proof. unfold step. by destruct (screen w) as [| | | | | |[]|]. Qed.

(** X7. A completed import replaces the database by the orders computed
  from the rows, whatever it held, and stores it; the success notice
  is raised and the home screen shown.  The user, the current order,
  the scanned parts and the scanner flag are left alone, and the order
  objects of the old database still exist unchanged. *)
Theorem import_replaces_database (w : World) (data : list Row) (os : list Order) :
pendingParses w ≠ 0 → normalize toLowerCase data = Some os →
let w' := step (CsvComplete data) w in
db_orders w' = os ∧ localStorage w' !! dbKey = Some (JSON_stringify os) ∧
screen w' = Home ∧ alerts w' = DatabaseLoaded :: alerts w ∧
user w' = user w ∧ currentOrder w' = currentOrder w ∧
scannedParts w' = scannedParts w ∧ quaggaActive w' = quaggaActive w ∧
pendingParses w' = pred (pendingParses w) ∧
∀ l o, heap w !! l = Some o → heap w' !! l = Some o.
Proof.
intros Hp Hn. cbn zeta. rewrite step_CsvComplete.
destruct (pendingParses w) as [|n] eqn:Hn'; [done|].
unfold importComplete. rewrite Hn.
set (w0 := set_pendingParses n w).
assert (db_orders (showHome (alert DatabaseLoaded (saveDatabase (install os w0))))
        = db_orders (install os w0)) as -> by done.
rewrite db_orders_install.
unfold showHome, saveDatabase. wsimpl. rewrite lookup_insert_eq.
rewrite db_orders_install.
split_and!; try done.
intros l o Hl. unfold install. wsimpl. by apply lookup_app_l_Some.
Qed.

(** X8. An import whose file has a row with an inherited property name
  as order id changes nothing but the console: the database, the
  store, the screen and the notifications stay as they were, and no
  failure is shown to the user. *)
Theorem import_with_inherited_name_is_dropped (w : World) (data : list Row) :
pendingParses w ≠ 0 →
(∃ id p, (id, p) ∈ resolved (columns toLowerCase data) data ∧ inherited id = true) →
step (CsvComplete data) w
= log UncaughtTypeError (set_pendingParses (pred (pendingParses w)) w).
Proof.
intros Hp Hinh. rewrite step_CsvComplete.
destruct (pendingParses w) as [|n]; [done|].
unfold importComplete, normalize.
rewrite (proj2 (add_rows_None _ data [] (λ id H, False_rect _
  (proj1 (elem_of_nil id) H))) Hinh).
done.
Qed.

(** X9. On the import screen the sample button replaces the database by
  the one pending sample order, whatever it held, and stores it. *)
Theorem load_sample_replaces_database (w : World) :
screen w = Import →
let w' := step ClickLoadSample w in
db_orders w' = [sampleOrder] ∧
localStorage w' !! dbKey = Some (JSON_stringify [sampleOrder]) ∧
screen w' = Home ∧ alerts w' = SampleLoaded :: alerts w ∧
currentOrder w' = currentOrder w ∧ scannedParts w' = scannedParts w ∧
∀ l o, heap w !! l = Some o → heap w' !! l = Some o.
Proof.
intros Hs. cbn zeta. unfold step. rewrite Hs. unfold loadSample.
assert (db_orders (showHome (alert SampleLoaded
          (saveDatabase (install [sampleOrder] w))))
        = db_orders (install [sampleOrder] w)) as -> by done.
rewrite db_orders_install.
unfold showHome, saveDatabase. wsimpl. rewrite lookup_insert_eq.
rewrite db_orders_install. split_and!; try done.
intros l o Hl. unfold install. wsimpl. by apply lookup_app_l_Some.
Qed.

(** ** What scanning leaves alone *)

Lemma same_store_refl w : same_store w w.
Proof. done. Qed.

Lemma same_store_trans w1 w2 w3 :
same_store w1 w2 → same_store w2 w3 → same_store w1 w3.
Proof. unfold same_store. intros (-> & -> & -> & ->) (-> & -> & -> & ->). done. Qed.

Lemma same_store_startScanner cb w : same_store w (startScanner cb w).
Proof. unfold startScanner. by destruct cameraAvailable. Qed.

Lemma same_store_showOrderScan w : same_store w (showOrderScan w).
Proof.
unfold showOrderScan. eapply same_store_trans; [|apply same_store_startScanner]. done.
Qed.

Lemma same_store_handleOrderDetected code w : same_store w (handleOrderDetected code w).
Proof.
unfold handleOrderDetected, showPartScan, showOrderScan, startScanner, current.
repeat case_match; done.
Qed.

Lemma same_store_handlePartDetected code w : same_store w (handlePartDetected code w).
Proof.
unfold handlePartDetected, showSummary, stopScanner, current.
repeat case_match; done.
Qed.

Lemma same_store_onDetected code w cb : same_store w (onDetected code w cb).
Proof.
unfold onDetected. destruct (quaggaActive w); cbn [negb]; [|done].
destruct (truthy code); [|done].
destruct cb.
- eapply same_store_trans; [|apply same_store_handleOrderDetected]. done.
- eapply same_store_trans; [|apply same_store_handlePartDetected]. done.
Qed.

Lemma same_store_publish code w : same_store w (publish code w).
Proof.
unfold publish. generalize (subscribers w) as cbs. intros cbs.
assert (∀ w0, same_store w w0 → same_store w (foldl (onDetected code) w0 cbs)) as H.
{ induction cbs as [|cb cbs IH]; intros w0 H0; simpl; [done|].
  apply IH. eapply same_store_trans; [done|apply same_store_onDetected]. }
apply H, same_store_refl.
Qed.

Lemma same_store_manualOrder value w : same_store w (manualOrder value w).
Proof.
unfold manualOrder. destruct (truthy _); cbn [negb]; [|done].
eapply same_store_trans; [|apply same_store_handleOrderDetected]. done.
Qed.

Lemma same_store_manualPart value w : same_store w (manualPart value w).
Proof.
unfold manualPart. destruct (truthy _); cbn [negb]; [|done].
apply same_store_handlePartDetected.
Qed.

(** Every event that neither touches the database nor the session
  leaves the database, the order objects, the store and the user. *)
Lemma same_store_step e w :
changes_database e = false → changes_session e = false → same_store w (step e w).
Proof.
intros Hd Hs. unfold step.
destruct e; try discriminate;
  destruct (screen w) as [| | | | | |[]|]; try done;
  try (destruct (pendingParses w); done);
  first
    [ apply same_store_showOrderScan
    | apply same_store_manualOrder
    | apply same_store_manualPart
    | apply same_store_publish
    | (unfold cancelParts; eapply same_store_trans;
       [|apply same_store_showOrderScan]; done) ].
Qed.

Lemma database_frame (e : Event) (w : World) :
changes_database e = false →
db (step e w) = db w ∧ heap (step e w) = heap w ∧
localStorage (step e w) !! dbKey = localStorage w !! dbKey.
Proof.
intros Hd. destruct (changes_session e) eqn:Hs.
- unfold step.
  destruct e; try discriminate; destruct (screen w) as [| | | | | |[]|]; try done.
  + unfold login. destruct (truthy _); cbn [negb]; [|done].
    unfold showHome. wsimpl. split_and!; [done..|].
    rewrite lookup_insert_ne; [done | apply userKey_ne_dbKey].
  + unfold logout, showLogin. wsimpl. split_and!; [done..|].
    rewrite lookup_delete_ne; [done | apply userKey_ne_dbKey].
- destruct (same_store_step e w Hd Hs) as (-> & -> & -> & _). done.
Qed.

(** X10. Scanning, navigating, logging in and out never touch the
  database: only the sample button, a completed import and the
  mark-packed button change [state.db], an order object or the stored
  database text. *)
Theorem only_commits_change_database (e : Event) (w : World) :
changes_database e = false →
db (step e w) = db w ∧ heap (step e w) = heap w ∧
localStorage (step e w) !! dbKey = localStorage w !! dbKey.
Proof. apply database_frame. Qed.

(** X11. Only the login and logout buttons change the session: every
  other event leaves [state.user] and the stored user name as they
  were. *)
Theorem only_login_logout_change_session (e : Event) (w : World) :
changes_session e = false →
user (step e w) = user w ∧
localStorage (step e w) !! userKey = localStorage w !! userKey.
Proof.
intros Hs. destruct (changes_database e) eqn:Hd.
- unfold step.
  destruct e; try discriminate; destruct (screen w) as [| | | | | |[]|]; try done;
    try (destruct (pendingParses w); [done|]).
  all: unfold loadSample, importComplete, markPacked, showHome, saveDatabase,
         install, alloc.
  all: repeat case_match; wsimpl; split; try done.
  all: rewrite lookup_insert_ne; [done | by intros E; apply userKey_ne_dbKey].
- destruct (same_store_step e w Hd Hs) as (_ & _ & -> & ->). done.
Qed.

Lemma lookup_install os w l o :
heap w !! l = Some o → heap (install os w) !! l = Some o.
Proof. intros H. unfold install. wsimpl. by apply lookup_app_l_Some. Qed.

Lemma lookup_loadSample w l o :
heap w !! l = Some o → heap (loadSample w) !! l = Some o.
Proof. intros H. unfold loadSample, showHome, saveDatabase. wsimpl. by apply lookup_install. Qed.

Lemma lookup_importComplete data w l o :
heap w !! l = Some o → heap (importComplete data w) !! l = Some o.
Proof.
intros H. unfold importComplete. destruct (normalize _ _); [|done].
unfold showHome, saveDatabase. wsimpl. by apply lookup_install.
Qed.

(** X12. Order objects are never removed, and the only change an event
  ever makes to one is the packing of the current order by the
  mark-packed button: every other field of every order, and every
  other order, stays as it is.  In particular a packed order stays
  packed. *)
Theorem orders_change_only_by_packing (e : Event) (w : World) (l : nat) (o : Order) :
heap w !! l = Some o →
heap (step e w) !! l = Some o ∨
∃ now, e = ClickMarkPacked now ∧ currentOrder w = Some l ∧
       heap (step e w) !! l = Some (packed o now (user w)).
Proof.
intros Hl. destruct (changes_database e) eqn:Hd.
2:{ left. by destruct (database_frame e w Hd) as (_ & -> & _). }
unfold step.
destruct e; try discriminate; destruct (screen w) as [| | | | | |[]|];
  try (by left); try (destruct (pendingParses w); [by left|]).
all: try (left; by apply lookup_loadSample).
all: try (left; by apply lookup_importComplete).
unfold markPacked, current.
destruct (currentOrder w) as [l0|] eqn:Hc; cbn [mbind option_bind]; [|by left].
destruct (heap w !! l0) as [o0|] eqn:Hl0; [|by left].
unfold showHome, saveDatabase. wsimpl.
destruct (decide (l0 = l)) as [->|Hne].
- right. exists now. split_and!; [done..|].
  assert (o0 = o) as -> by congruence.
  apply list_lookup_insert_eq. by eapply lookup_lt_Some.
- left. by rewrite list_lookup_insert_ne.
Qed.

(** ** The stored database *)

Lemma sync_same (w w' : World) :
db w' = db w → heap w' = heap w →
localStorage w' !! dbKey = localStorage w !! dbKey →
stored_in_sync w → stored_in_sync w'.
Proof. unfold stored_in_sync, db_orders. by intros -> -> ->. Qed.

Lemma sync_saveDatabase w : stored_in_sync (saveDatabase w).
Proof. unfold stored_in_sync, saveDatabase. wsimpl. by rewrite lookup_insert_eq. Qed.

Lemma sync_step e w : stored_in_sync w → stored_in_sync (step e w).
Proof.
intros H. destruct (changes_database e) eqn:Hd.
2:{ destruct (database_frame e w Hd) as (? & ? & ?). by eapply sync_same. }
unfold step.
destruct e; try discriminate; destruct (screen w) as [| | | | | |[]|]; try done;
  try (destruct (pendingParses w); [done|]).
all: unfold loadSample, importComplete, markPacked, showHome.
all: repeat case_match; try (revert H; by apply sync_same).
all: eapply sync_same; [| | |apply sync_saveDatabase]; done.
Qed.

Lemma sync_run es w : stored_in_sync w → stored_in_sync (run es w).
Proof.
revert w. unfold run.
induction es as [|e es IH]; intros w H; simpl; [done|]. by apply IH, sync_step.
Qed.

Lemma sync_init store :
store !! dbKey = None ∨ store !! dbKey = Some [] → stored_in_sync (init store).
Proof.
intros H.
assert (loadDatabase (boot store) = saveDatabase (install [sampleOrder] (boot store)))
  as E by (unfold loadDatabase; cbn [localStorage boot]; by destruct H as [-> | ->]).
unfold init. rewrite E.
repeat case_match; (eapply sync_same; [| | |apply sync_saveDatabase]; done).
Qed.

(** X13. When the application starts without a stored database, the
  stored database text is at all times the serialization of the
  database held in memory: every listener that changes the database
  saves it before it returns. *)
Theorem stored_database_is_current (store : gmap jsstring jsstring) (es : list Event) :
store !! dbKey = None ∨ store !! dbKey = Some [] →
stored_in_sync (run es (init store)).
Proof. intros H. by apply sync_run, sync_init. Qed.

(** X14. A restart reads back what was stored.  If the stored text is
  the serialization of the database and the platform parses that text
  back to the same orders, [init] on the store of a world yields the
  same database and leaves the store alone; the scan progress starts
  empty; and the user is the stored user name with the home screen
  shown, or nobody with the login screen when no name or an empty name
  is stored. *)
Theorem restart_restores_database_and_session (w : World) :
stored_in_sync w →
JSON_stringify (db_orders w) ≠ [] →
JSON_parse (JSON_stringify (db_orders w)) = Some (db_orders w) →
let w' := init (localStorage w) in
db_orders w' = db_orders w ∧ localStorage w' = localStorage w ∧
currentOrder w' = None ∧ scannedParts w' = [] ∧
match localStorage w !! userKey with
| Some (c :: name) => user w' = Some (c :: name) ∧ screen w' = Home
| _ => user w' = None ∧ screen w' = Login
end.
Proof.
intros Hsync Hne Hrt. cbn zeta.
assert (loadDatabase (boot (localStorage w))
        = install (db_orders w) (boot (localStorage w))) as E.
{ unfold loadDatabase. cbn [localStorage boot]. rewrite Hsync.
  destruct (JSON_stringify (db_orders w)) as [|c s] eqn:Hs; [done|].
  by rewrite Hrt. }
unfold init. rewrite E.
assert (localStorage (install (db_orders w) (boot (localStorage w)))
        = localStorage w) as -> by done.
destruct (localStorage w !! userKey) as [[|c name]|];
  (split_and!; [apply (db_orders_install (db_orders w))|done..]).
Qed.

(** ** Scanning the parts in any order *)

Lemma accepts_fresh_part (w : World) (o : Order) (c : jsstring) :
current w = Some o → c ≠ [] → trim c = c → c ∉ scannedParts w → c ∈ parts o →
accepts w c = true.
Proof.
intros Hc Hne Ht Hs Hp. unfold accepts. rewrite Ht, Hc.
apply truthy_nonempty in Hne. rewrite Hne.
apply includes_not_elem_of in Hs. rewrite Hs.
apply includes_elem_of in Hp. by rewrite Hp.
Qed.

(** Codes that leave the order incomplete are all accepted and keep the
  part screen. *)
Lemma scan_prefix (o : Order) (pre : list jsstring) :
∀ w, screen w = PartScan → current w = Some o →
  NoDup (scannedParts w ++ pre) →
  Forall (λ c, c ∈ parts o ∧ c ≠ [] ∧ trim c = c) pre →
  length (scannedParts w ++ pre) < length (parts o) →
  let w' := foldl (λ w c, handlePartDetected c w) w pre in
  screen w' = PartScan ∧ current w' = Some o ∧
  scannedParts w' = scannedParts w ++ pre.
Proof.
induction pre as [|c pre IH]; intros w Hs Hc Hnd Hall Hlen; cbn zeta.
- by rewrite app_nil_r.
- cbn [foldl]. apply Forall_cons in Hall as [(Hin & Hne & Ht) Hall].
  assert (c ∉ scannedParts w) as Hfresh.
  { apply NoDup_app in Hnd as (_ & Hd & _). intros Hx.
    apply (Hd c Hx). left. }
  pose proof (accepts_fresh_part w o c Hc Hne Ht Hfresh Hin) as Ha.
  assert (handlePartDetected c w = set_scannedParts (scannedParts w ++ [c]) w) as E.
  { rewrite (handlePartDetected_accepted w c o Hc Ha). cbn zeta. rewrite Ht. wsimpl.
    rewrite bool_decide_eq_false_2; [done|].
    rewrite !length_app in *. simpl in *. lia. }
  rewrite E.
  replace (scannedParts w ++ c :: pre) with ((scannedParts w ++ [c]) ++ pre) in *
    by by rewrite <- app_assoc.
  apply IH; try done.
Qed.

(** X15. For an order whose part list has no repeats and whose part ids
  are not blank and trimmed, submit its parts in any order from a
  fresh selection: every code before the last keeps the part screen,
  and the last one shows the summary with the button enabled, nothing
  missing, and the parts scanned in the order submitted. *)
Theorem any_scan_order_completes (w : World) (o : Order) (codes : list jsstring) :
screen w = PartScan → current w = Some o → scannedParts w = [] →
parts o ≠ [] → NoDup (parts o) →
Forall (λ p, p ≠ [] ∧ trim p = p) (parts o) →
codes ≡ₚ parts o →
let submit := foldl (λ w c, handlePartDetected c w) w in
(∀ k, k < length codes → screen (submit (take k codes)) = PartScan) ∧
screen (submit codes) = Summary false ∧
missingParts (submit codes) = [] ∧
scannedParts (submit codes) = codes.
Proof.
intros Hs Hc Hnil Hne Hnd Hok Hperm. cbn zeta.
assert (NoDup codes) as Hndc by by rewrite Hperm.
assert (Forall (λ c, c ∈ parts o ∧ c ≠ [] ∧ trim c = c) codes) as Hall.
{ apply Forall_forall. intros c Hin. rewrite Hperm in Hin.
  rewrite Forall_forall in Hok. destruct (Hok c Hin). done. }
assert (length codes = length (parts o)) as Hlen by by rewrite Hperm.
split.
- intros k Hk.
  destruct (scan_prefix o (take k codes) w Hs Hc) as (H1 & _).
  + rewrite Hnil. cbn [app]. eapply sublist_NoDup; [done|apply sublist_take].
  + by apply Forall_take.
  + rewrite Hnil. cbn [app]. rewrite length_take. lia.
  + done.
- destruct codes as [|c0 codes0] using rev_ind.
  { symmetry in Hperm. apply Permutation_nil_r in Hperm. done. }
  clear IHcodes0. rewrite foldl_app. cbn [foldl].
  apply Forall_app in Hall as [Hpre Hlast].
  apply Forall_singleton in Hlast as (Hin & Hcne & Ht).
  rewrite length_app in Hlen. cbn [length] in Hlen.
  destruct (scan_prefix o codes0 w Hs Hc) as (H1 & H2 & H3).
  + rewrite Hnil. cbn [app]. by apply NoDup_app in Hndc as (? & _).
  + done.
  + rewrite Hnil. cbn [app]. lia.
  + set (w1 := foldl (λ w c, handlePartDetected c w) w codes0) in *.
    rewrite Hnil in H3. cbn [app] in H3.
    assert (c0 ∉ scannedParts w1) as Hfresh.
    { rewrite H3. apply NoDup_app in Hndc as (_ & Hd & _). intros Hx.
      apply (Hd c0 Hx). left. }
    pose proof (accepts_fresh_part w1 o c0 H2 Hcne Ht Hfresh Hin) as Ha.
    rewrite (handlePartDetected_accepted w1 c0 o H2 Ha). cbn zeta. rewrite Ht. wsimpl.
    rewrite bool_decide_eq_true_2 by (rewrite H3, length_app; simpl; lia).
    assert (filter (λ p, p ∉ scannedParts w1 ++ [c0]) (parts o) = []) as Hm.
    { apply elem_of_nil_inv. intros p [Hnot Hp]%list_elem_of_filter.
      apply Hnot. by rewrite H3, Hperm. }
    unfold showSummary, stopScanner, missingParts, current in *. wsimpl.
    rewrite H2. wsimpl. rewrite H2, Hm. by rewrite H3.
Qed.

(** ** An unknown order code, again and again *)

Lemma handleOrderDetected_not_found_frame code w :
find_order (heap w) code (orders (db w)) = None →
let w' := handleOrderDetected code w in
alerts w' = OrderNotFound code :: alerts w ∧ screen w' = OrderScan ∧
currentOrder w' = currentOrder w ∧ scannedParts w' = scannedParts w ∧
db w' = db w ∧ heap w' = heap w ∧ localStorage w' = localStorage w.
Proof.
intros Hf. cbn zeta. rewrite handleOrderDetected_not_found by done.
unfold showOrderScan, startScanner. by destruct cameraAvailable.
Qed.

(** X16. Submitting an order code that no order of the database has is
  idempotent on everything but the notifications: however often it is
  repeated, each submission raises the not-found notice and shows the
  order screen, and the current order, the scanned parts, the database
  and the store are never touched. *)
Theorem unknown_order_code_never_mutates (w : World) (code : jsstring) (n : nat) :
(∀ o, o ∈ db_orders w → orderId o ≠ code) →
let w' := Nat.iter n (handleOrderDetected code) w in
alerts w' = replicate n (OrderNotFound code) ++ alerts w ∧
(0 < n → screen w' = OrderScan) ∧
currentOrder w' = currentOrder w ∧ scannedParts w' = scannedParts w ∧
db w' = db w ∧ heap w' = heap w ∧ localStorage w' = localStorage w.
Proof.
intros Hno. apply find_order_None in Hno. cbn zeta.
induction n as [|n IH]; [by split_and!; [done|lia|done..]|].
rewrite Nat.iter_succ. destruct IH as (Ha & _ & Hc & Hs & Hd & Hh & Hl).
destruct (handleOrderDetected_not_found_frame code
            (Nat.iter n (handleOrderDetected code) w))
  as (Ha' & Hs' & Hc' & Hsp' & Hd' & Hh' & Hl').
{ by rewrite Hh, Hd. }
cbn zeta in *. split_and!.
- by rewrite Ha', Ha.
- done.
- by rewrite Hc'.
- by rewrite Hsp'.
- by rewrite Hd'.
- by rewrite Hh'.
- by rewrite Hl'.
Qed.

(** ** The part callback *)

Lemma handlePartDetected_inactive code w :
quaggaActive w = false → quaggaActive (handlePartDetected code w) = false.
Proof.
intros H. unfold handlePartDetected, showSummary, stopScanner, current.
repeat case_match; by wsimpl.
Qed.

(** X17. The detection callback of the part screen fires once: after it
  has taken a non-empty code the scanner flag is off, whatever the code
  was and whether or not the part was accepted, and the part handler
  never turns it on again, so the same callback drops every later
  detection. *)
Theorem part_callback_fires_once (w : World) (code : jsstring) :
code ≠ [] →
quaggaActive (onDetected code w OnPart) = false ∧
∀ code', onDetected code' (onDetected code w OnPart) OnPart
         = onDetected code w OnPart.
Proof.
intros Hne.
assert (quaggaActive (onDetected code w OnPart) = false) as H.
{ unfold onDetected. destruct (quaggaActive w) eqn:Hq; cbn [negb]; [|done].
  apply truthy_nonempty in Hne. rewrite Hne.
  by apply handlePartDetected_inactive. }
split; [done|]. intros code'. by apply onDetected_inactive.
Qed.

(** ** The progress display *)

(** X18. Wherever the application gets to, the progress display never
  shows more parts scanned than the current order lists. *)
Theorem progress_never_exceeds_total
  (store : gmap jsstring jsstring) (es : list Event) (k n : nat) :
updateProgress (run es (init store)) = Some (k, n) → k ≤ n.
Proof.
unfold updateProgress.
destruct (current (run es (init store))) as [o|] eqn:Hc; [|done].
cbn [mbind option_bind]. intros [= <- <-].
pose proof (scan_inv_bound _ o (scan_inv_reachable store es) Hc).
pose proof (remove_dups_length_le (parts o)). lia.
Qed.

(** ** The summary is always complete *)

Lemma summary_complete_elsewhere w :
(∀ d, screen w ≠ Summary d) → summary_complete w.
Proof. unfold summary_complete. destruct (screen w); [done..|naive_solver|done]. Qed.

Lemma summary_complete_same (w w' : World) :
screen w' = screen w → currentOrder w' = currentOrder w →
scannedParts w' = scannedParts w → heap w' = heap w →
summary_complete w → summary_complete w'.
Proof. unfold summary_complete, current. by intros -> -> -> ->. Qed.

Lemma summary_complete_handleOrderDetected code w :
summary_complete (handleOrderDetected code w).
Proof.
apply summary_complete_elsewhere. intros d.
unfold handleOrderDetected, showOrderScan, showPartScan.
repeat case_match; rewrite ?screen_startScanner; done.
Qed.

Lemma summary_complete_handlePartDetected code w :
(∀ d, screen w ≠ Summary d) → summary_complete (handlePartDetected code w).
Proof.
intros Hs. destruct (accepts w code) eqn:Ha.
- destruct (current w) as [o|] eqn:Hc.
  2:{ unfold accepts in Ha. rewrite Hc in Ha. by rewrite andb_false_r in Ha. }
  rewrite (handlePartDetected_accepted w code o) by done. cbn zeta.
  case_bool_decide as Hlen.
  + unfold showSummary, stopScanner, summary_complete, current in *. wsimpl.
    rewrite Hc. wsimpl. by rewrite Hc.
  + by apply summary_complete_elsewhere.
- apply summary_complete_elsewhere. intros d.
  destruct (handlePartDetected_rejected w code Ha) as (-> & _). apply Hs.
Qed.

Lemma summary_complete_onDetected code w cb :
summary_inv w → summary_complete w → summary_complete (onDetected code w cb).
Proof.
intros Hi H. unfold onDetected.
destruct (quaggaActive w) eqn:Hq; cbn [negb]; [|done].
destruct (truthy code); [|done].
destruct cb; [apply summary_complete_handleOrderDetected|].
apply summary_complete_handlePartDetected. intros d. wsimpl.
by apply summary_inv_active.
Qed.

Lemma summary_complete_publish code w :
summary_inv w → summary_complete w → summary_complete (publish code w).
Proof.
unfold publish. generalize (subscribers w) as cbs. intros cbs. revert w.
induction cbs as [|cb cbs IH]; intros w Hi H; simpl; [done|].
apply IH; [by apply summary_inv_onDetected | by apply summary_complete_onDetected].
Qed.

Lemma summary_complete_step e w :
summary_inv w → summary_complete w → summary_complete (step e w).
Proof.
intros Hi H. unfold step.
destruct e; destruct (screen w) as [| | | | | |[]|] eqn:Hs; try done;
  try (destruct (pendingParses w) as [|n]; [done|]);
  first
    [ by apply summary_complete_publish
    | by (unfold showOrderScan; apply summary_complete_elsewhere;
          intros d; rewrite screen_startScanner)
    | by (unfold importComplete; destruct (normalize _ _);
          [apply summary_complete_elsewhere
          |revert H; apply summary_complete_same; wsimpl])
    | by (unfold manualOrder; destruct (truthy _); cbn [negb];
          [apply summary_complete_handleOrderDetected
          |apply summary_complete_elsewhere; wsimpl; rewrite Hs])
    | by (unfold manualPart; destruct (truthy _); cbn [negb];
          [apply summary_complete_handlePartDetected; rewrite Hs
          |apply summary_complete_elsewhere; wsimpl; rewrite Hs])
    | by (unfold cancelParts, showOrderScan; apply summary_complete_elsewhere;
          intros d; rewrite screen_startScanner)
    | by (unfold markPacked; repeat case_match;
          [apply summary_complete_elsewhere
          |revert H; apply summary_complete_same; by wsimpl..])
    | by (unfold login; destruct (truthy _); cbn [negb];
          apply summary_complete_elsewhere; wsimpl; rewrite ?Hs)
    | by (revert H; apply summary_complete_same; by wsimpl)
    | by apply summary_complete_elsewhere ].
Qed.

Lemma summary_complete_reachable store es :
summary_inv (run es (init store)) ∧ summary_complete (run es (init store)).
Proof.
assert (summary_inv (init store) ∧ summary_complete (init store)) as H0.
{ split; [apply summary_inv_init|]. apply summary_complete_elsewhere. intros d.
  unfold init, loadDatabase, boot, install, saveDatabase, showHome, showLogin.
  repeat case_match; by wsimpl. }
revert H0. generalize (init store) as w. unfold run.
induction es as [|e es IH]; intros w [Hi Hc]; simpl; [done|].
apply IH. split; [by apply summary_inv_step | by apply summary_complete_step].
Qed.

(** X19. Wherever the application gets to, a summary screen is the
  summary of a complete order: the scanned parts are the parts of the
  current order in some order, no part is listed as missing, and the
  mark-packed button is enabled.  The disabled state of the button
  never occurs. *)
Theorem summary_is_always_complete
  (store : gmap jsstring jsstring) (es : list Event) (d : bool) :
screen (run es (init store)) = Summary d →
d = false ∧ missingParts (run es (init store)) = [] ∧
∃ o, current (run es (init store)) = Some o ∧
     scannedParts (run es (init store)) ≡ₚ parts o.
Proof.
intros Hs. set (w := run es (init store)) in *.
destruct (summary_complete_reachable store es) as [Hi Hc]. fold w in Hi, Hc.
pose proof (scan_inv_reachable store es) as Hinv. fold w in Hinv.
unfold summary_complete in Hc. rewrite Hs in Hc.
destruct (current w) as [o|] eqn:Ho; [|done].
pose proof (complete_nothing_missing w o Hinv Ho Hc) as Hm.
unfold summary_inv in Hi. rewrite Hs in Hi. destruct Hi as (_ & Hd & _).
rewrite Hm in Hd. split_and!; [done..|].
exists o. split; [done|].
unfold scan_inv, current in *.
destruct (currentOrder w) as [l|]; [|done]. cbn [mbind option_bind] in Ho.
rewrite Ho in Hinv. destruct Hinv as [Hnd Hall]. rewrite Forall_forall in Hall.
apply submseteq_length_Permutation; [by apply NoDup_submseteq | lia].
Qed.

(** X20. An order whose part list repeats an identifier is never
  summarized: wherever the application gets to, while such an order is
  the current order no summary screen is shown, so it cannot be
  packed. *)
Theorem order_with_repeated_part_is_never_summarized
  (store : gmap jsstring jsstring) (es : list Event) (o : Order) :
current (run es (init store)) = Some o → ¬ NoDup (parts o) →
∀ d, screen (run es (init store)) ≠ Summary d.
Proof.
intros Ho Hdup d Hs. set (w := run es (init store)) in *.
destruct (summary_complete_reachable store es) as [_ Hc]. fold w in Hc.
pose proof (scan_inv_reachable store es) as Hinv. fold w in Hinv.
unfold summary_complete in Hc. rewrite Hs, Ho in Hc.
pose proof (scan_inv_bound w o Hinv Ho).
pose proof (remove_dups_length_lt _ Hdup). lia.
Qed.

(** ** Which cells a row is read from *)




(** ** The service worker *)

Lemma filter_ext_in {A} (F G : A → Prop) `{∀ x, Decision (F x)} `{∀ x, Decision (G x)}
  (l : list A) :
(∀ x, x ∈ l → F x ↔ G x) → filter F l = filter G l.
Proof.
induction l as [|x l IH]; intros Hl; [done|].
rewrite !filter_cons.
assert (filter F l = filter G l) as -> by (apply IH; intros y Hy; apply Hl; by right).
assert (F x ↔ G x) as Hx by (apply Hl; left).
destruct (decide (F x)) as [HF|HF], (decide (G x)) as [HG|HG]; try done;
  exfalso; tauto.
Qed.

Lemma filter_all {A} (F : A → Prop) `{∀ x, Decision (F x)} (l : list A) :
(∀ x, x ∈ l → F x) → filter F l = l.
Proof.
induction l as [|x l IH]; intros Hl; [done|].
rewrite filter_cons, decide_True by (apply Hl; left).
f_equal. apply IH. intros y Hy. apply Hl. by right.
Qed.

Lemma sw_activate_keys (ks : list jsstring) (cs : CacheStorage) :
foldl (λ cs key, if bool_decide (key ≠ CACHE_NAME) then caches_delete key cs else cs)
  cs ks
= filter (λ kc : jsstring * Cache, kc.1 = CACHE_NAME ∨ kc.1 ∉ ks) cs.
Proof.
revert cs. induction ks as [|k ks IH]; intros cs; cbn [foldl].
- symmetry. apply filter_all. intros kc _. right. apply not_elem_of_nil.
- rewrite IH. case_bool_decide as Hk.
  + unfold caches_delete. rewrite list_filter_filter.
    apply filter_ext_in. intros kc _. rewrite not_elem_of_cons. split.
    * intros [[->|Hn] Hne]; [by left|right; done].
    * intros [->|[Hne Hn]]; [split; [by left|congruence]|split; [by right|done]].
  + apply filter_ext_in. intros kc _. rewrite not_elem_of_cons.
    subst k. split.
    * intros [->|Hn]; [by left|].
      destruct (decide (kc.1 = CACHE_NAME)); [by left|by right].
    * intros [->|[_ Hn]]; [by left|by right].
Qed.

(** What the activate listener leaves: the caches called [CACHE_NAME]. *)
Lemma sw_activate_filter (cs : CacheStorage) :
sw_activate cs = filter (λ kc : jsstring * Cache, kc.1 = CACHE_NAME) cs.
Proof.
unfold sw_activate. rewrite sw_activate_keys. apply filter_ext_in.
intros kc Hin. split; [|by left]. intros [?|Hn]; [done|].
exfalso. apply Hn. by apply list_elem_of_fmap_2.
Qed.

(** X22. Activation purges the superseded caches: afterwards every cache
  is called [CACHE_NAME], the cache of that name is kept with its
  content and every other cache is gone, and activating again changes
  nothing. *)
Theorem activation_keeps_only_the_current_cache (cs : CacheStorage) :
(∀ name c, (name, c) ∈ sw_activate cs ↔ name = CACHE_NAME ∧ (name, c) ∈ cs) ∧
sw_activate (sw_activate cs) = sw_activate cs.
Proof.
split.
- intros name c. rewrite sw_activate_filter, list_elem_of_filter. done.
- rewrite !sw_activate_filter, list_filter_filter.
  apply filter_ext_in. intros kc _. tauto.
Qed.

Lemma cache_match_put url u r (c : Cache) :
cache_match url (cache_put u r c)
= if decide (u = url) then Some r else cache_match url c.
Proof.
unfold cache_match, cache_put.
induction c as [|[k v] c IH].
- cbn [filter list_filter app List.find fst].
  destruct (decide (u = url)) as [->|Hne].
  + by rewrite bool_decide_eq_true_2.
  + by rewrite bool_decide_eq_false_2.
- rewrite filter_cons. cbn [fst].
  destruct (decide (k ≠ u)) as [Hku|Hku].
  + cbn [app List.find fst]. case_bool_decide as Hk.
    * subst k. by rewrite decide_False by done.
    * exact IH.
  + apply dec_stable in Hku. subst k. rewrite IH. cbn [List.find fst].
    destruct (decide (u = url)) as [->|Hne]; [done|].
    by rewrite bool_decide_eq_false_2.
Qed.

Lemma cache_match_fill_other url (pairs : list (jsstring * Response)) (c : Cache) :
url ∉ pairs.*1 →
cache_match url (foldl (λ c ur, cache_put ur.1 ur.2 c) c pairs) = cache_match url c.
Proof.
revert c. induction pairs as [|[u r] pairs IH]; intros c Hn; [done|].
cbn [foldl fst snd]. rewrite fmap_cons in Hn. apply not_elem_of_cons in Hn as [Hne Hn].
rewrite IH by done. rewrite cache_match_put. by rewrite decide_False.
Qed.

Lemma cache_match_fill url r (pairs : list (jsstring * Response)) (c : Cache) :
NoDup pairs.*1 → (url, r) ∈ pairs →
cache_match url (foldl (λ c ur, cache_put ur.1 ur.2 c) c pairs) = Some r.
Proof.
revert c. induction pairs as [|[u r0] pairs IH]; intros c Hnd Hin.
- by apply elem_of_nil in Hin.
- rewrite fmap_cons in Hnd. apply NoDup_cons in Hnd as [Hu Hnd].
  cbn [foldl fst snd]. apply elem_of_cons in Hin as [E|Hin].
  + injection E as -> ->. rewrite cache_match_fill_other by done.
    rewrite cache_match_put. by rewrite decide_True.
  + by apply IH.
Qed.

Lemma NoDup_FILES_TO_CACHE : NoDup FILES_TO_CACHE.
Proof. apply (bool_decide_unpack (NoDup FILES_TO_CACHE)). vm_compute. exact I. Qed.

(** X23. The precached files are served without the network.  When the
  install listener could fetch every file of [FILES_TO_CACHE] with an
  ok response, its promise is fulfilled, and after activation the fetch
  listener answers a request for any of these files with the response
  fetched at install time, whatever the network does by then, whatever
  other caches existed before. *)
Theorem precached_files_are_served_offline
  (fetch : jsstring → option Response) (cs : CacheStorage) :
(∀ url, url ∈ FILES_TO_CACHE → ∃ r, fetch url = Some r ∧ ok r = true) →
(sw_install fetch cs).2 = true ∧
∀ url later, url ∈ FILES_TO_CACHE →
  sw_fetch later (sw_activate (sw_install fetch cs).1) url = fetch url.
Proof.
intros Hall.
assert (∃ rs, mapM fetch FILES_TO_CACHE = Some rs ∧ forallb ok rs = true ∧
              Forall2 (λ u r, fetch u = Some r) FILES_TO_CACHE rs) as (rs & Hrs & Hok & H2).
{ assert (is_Some (mapM fetch FILES_TO_CACHE)) as [rs Hrs].
  { apply mapM_is_Some, Forall_forall. intros u Hu.
    destruct (Hall u Hu) as (r & Hr & _). unfold compose. by rewrite Hr. }
  exists rs. apply mapM_Some in Hrs as H2. split_and!; [done| |done].
  apply List.forallb_forall. intros r Hr%list_elem_of_In.
  apply list_elem_of_lookup in Hr as [i Hi].
  destruct (Forall2_lookup_r _ _ _ _ _ H2 Hi) as (u & Hu & Hf).
  destruct (Hall u) as (r' & Hr' & Hok'); [by eapply list_elem_of_lookup_2|].
  rewrite Hf in Hr'. injection Hr' as <-. by rewrite Hok'. }
unfold sw_install, addAll. rewrite Hrs. cbn [mbind option_bind]. rewrite Hok.
cbn [fst snd]. split; [done|].
intros url later Hurl.
destruct (Hall url Hurl) as (r & Hr & _). rewrite Hr.
assert ((url, r) ∈ zip FILES_TO_CACHE rs) as Hin.
{ apply list_elem_of_lookup in Hurl as [i Hi].
  destruct (Forall2_lookup_l _ _ _ _ _ H2 Hi) as (r' & Hr' & Hf).
  rewrite Hr in Hf. injection Hf as <-.
  apply list_elem_of_lookup. exists i. rewrite lookup_zip_with, Hi. cbn. by rewrite Hr'. }
assert ((zip FILES_TO_CACHE rs).*1 = FILES_TO_CACHE) as Hfst.
{ apply fst_zip. apply Forall2_length in H2. lia. }
unfold sw_fetch. rewrite sw_activate_filter.
set (fill := λ kc : jsstring * Cache,
       if bool_decide (kc.1 = CACHE_NAME)
       then (kc.1, foldl (λ c ur, cache_put ur.1 ur.2 c) kc.2 (zip FILES_TO_CACHE rs))
       else kc).
assert (∀ l : CacheStorage, CACHE_NAME ∈ l.*1 →
          caches_match url (filter (λ kc : jsstring * Cache, kc.1 = CACHE_NAME)
                              (fill <$> l)) = Some r) as Hmatch.
{ induction l as [|[k c] l IH]; intros Hk; [by apply elem_of_nil in Hk|].
  rewrite fmap_cons. destruct (decide (k = CACHE_NAME)) as [->|Hne].
  - assert (fill (CACHE_NAME, c)
            = (CACHE_NAME, foldl (λ c ur, cache_put ur.1 ur.2 c) c
                             (zip FILES_TO_CACHE rs))) as ->
      by (unfold fill; cbn [fst snd]; by rewrite bool_decide_eq_true_2).
    rewrite filter_cons, decide_True by done. cbn [caches_match snd].
    rewrite (cache_match_fill url r); [done| |done].
    rewrite Hfst. apply NoDup_FILES_TO_CACHE.
  - assert (fill (k, c) = (k, c)) as ->
      by (unfold fill; cbn [fst snd]; by rewrite bool_decide_eq_false_2).
    rewrite filter_cons, decide_False by done. apply IH.
    rewrite fmap_cons in Hk. apply elem_of_cons in Hk as [Hk|Hk]; [|done].
    cbn [fst] in Hk. congruence. }
rewrite Hmatch; [done|].
unfold caches_open. case_bool_decide as Hopen; [done|].
rewrite fmap_app. apply elem_of_app. right. left.
Qed.

End Properties.

(** * The model on concrete inputs *)

Example sample_session_reaches_summary :
  screen (demo_run to_summary) = Summary false ∧
  missingParts (demo_run to_summary) = [] ∧
  scannedParts (demo_run to_summary) = [lit "PART002"; lit "PART001"; lit "PART003"] ∧
  user (demo_run to_summary) = Some (lit "Dana").
Proof. vm_compute. done. Qed.

(** C1, at an order whose part list names P1 twice (an imported file
    that lists the part on two rows).  After P1 is submitted,
    [scannedParts] holds the one distinct part identifier of the order
    and nothing is missing, yet the part screen stays: the check compares
    with the length of the part list, 2.  A further P1 is refused as a
    duplicate, so the summary is out of reach. *)
Theorem repeated_part_never_reaches_summary :
  let w := demo_run to_repeated_part in
  parts <$> current w = Some [lit "P1"; lit "P1"] ∧
  scannedParts w = [lit "P1"] ∧
  length (remove_dups [lit "P1"; lit "P1"]) = 1 ∧
  missingParts w = [] ∧
  screen w = PartScan ∧
  alerts (demo_step (ClickManualPart (lit "P1")) w) = [DuplicatePart (lit "P1"); DatabaseLoaded] ∧
  screen (demo_step (ClickManualPart (lit "P1")) w) = PartScan.
Proof. vm_compute. done. Qed.

(** C2 fails as stated: with the stored text "not json", which the
    parser rejects, [loadDatabase] leaves a database without orders, not
    the sample order. *)
Lemma loadDatabase_corrupt_is_not_sample :
  JSON_parse (Platform := demo) (lit "not json") = None ∧
  db_orders (loadDatabase (P := demo) (boot corrupt_store)) = [] ∧
  db_orders (loadDatabase (P := demo) (boot corrupt_store)) ≠ [sampleOrder].
Proof. vm_compute. done. Qed.

Lemma loadDatabase_fallbacks_witness :
  (db_orders (loadDatabase (P := demo) (boot ∅)) = [sampleOrder]) ∧
  (db (loadDatabase (P := demo) (boot corrupt_store)) = mkDatabase [] ∧
   console (loadDatabase (P := demo) (boot corrupt_store)) = [WarnParseFailed] ∧
   alerts (loadDatabase (P := demo) (boot corrupt_store)) = []).
Proof.
  split.
  - apply (proj1 (loadDatabase_fallbacks (P := demo) (boot ∅))).
    left. reflexivity.
  - destruct (proj2 (loadDatabase_fallbacks (P := demo) (boot corrupt_store))
                (lit "not json")) as (H1 & _ & H2 & H3 & _);
      [reflexivity | discriminate | reflexivity |].
    exact (conj H1 (conj H2 H3)).
Defined.


(** The premise of the packing theorem is not idle: an import that
    completes during a scan replaces the database under the current
    order.  The order then packed is the old object, and the order with
    the same id in the new database stays pending. *)
Example late_import_detaches_current_order :
  let w := demo_run late_import in
  screen w = Summary false ∧ ¬ current_in_db w ∧
  status <$> db_orders (demo_step (ClickMarkPacked (lit "T")) w) = [Pending].
Proof.
  cbn zeta. split_and!; [vm_compute; reflexivity| |vm_compute; reflexivity].
  intros H. apply (bool_decide_pack (current_in_db _)) in H.
  vm_compute in H. exact H.
Qed.

(** C4 fails as stated: after one part of ORDER001 was scanned, the
    cancel button leaves the current order and the scanned part in
    place. *)
Lemma cancelScan_keeps_scan_progress :
  let w := demo_run (to_part_screen ++ [ClickManualPart (lit "PART001")]) in
  screen w = PartScan ∧
  screen (demo_step ClickCancelParts w) = OrderScan ∧
  currentOrder (demo_step ClickCancelParts w) = Some 0 ∧
  scannedParts (demo_step ClickCancelParts w) = [lit "PART001"] ∧
  scannedParts (demo_step ClickCancelParts w) ≠ [].
Proof. vm_compute. done. Qed.

Lemma cancelScan_returns_to_order_selection_witness :
  let w := demo_run (to_part_screen ++ [ClickManualPart (lit "PART001")]) in
  screen w = PartScan ∧
  screen (demo_step ClickCancelParts w) = OrderScan ∧
  scannedParts (demo_step ClickCancelParts w) = scannedParts w.
Proof.
  assert (screen (demo_run (to_part_screen ++ [ClickManualPart (lit "PART001")]))
          = PartScan) as Hs by reflexivity.
  destruct (proj1 (cancelScan_returns_to_order_selection (P := demo) _) Hs)
    as (H1 & _ & _ & H2 & _).
  exact (conj Hs (conj H1 H2)).
Defined.

(** C5 fails as stated.  A manual entry of blanks is answered with the
    request for an order number, not with the not-found notice, although
    no order has the empty id.  And a code from the scanner is not
    trimmed: " ORDER001" is reported as not found although ORDER001 is a
    pending order of the database. *)
Lemma order_code_lookup_counterexample :
  let w := demo_run to_order_screen in
  screen w = OrderScan ∧
  trim (lit "   ") = [] ∧ (∀ o, o ∈ db_orders w → orderId o ≠ []) ∧
  alerts (demo_step (ClickManualOrder (lit "   ")) w) = [EnterOrderNumber] ∧
  trim (lit " ORDER001") = lit "ORDER001" ∧
  (orderId <$> db_orders w) = [lit "ORDER001"] ∧
  alerts (demo_step (Detected (lit " ORDER001")) w) = [OrderNotFound (lit " ORDER001")] ∧
  screen (demo_step (Detected (lit " ORDER001")) w) = OrderScan.
Proof.
  cbn zeta. split_and!; try (vm_compute; reflexivity).
  intros o Ho Hid.
  assert (db_orders (demo_run to_order_screen) = [sampleOrder]) as E
    by (vm_compute; reflexivity).
  rewrite E in Ho. apply list_elem_of_singleton in Ho. subst o. discriminate.
Qed.

Lemma manual_order_code_lookup_witness :
  let w := demo_run to_order_screen in
  screen w = OrderScan ∧ trim (lit " ORDER999 ") ≠ [] ∧
  (∀ o, o ∈ db_orders w → orderId o ≠ trim (lit " ORDER999 ")) ∧
  alerts (demo_step (ClickManualOrder (lit " ORDER999 ")) w)
    = OrderNotFound (lit "ORDER999") :: alerts w.
Proof.
  assert (screen (demo_run to_order_screen) = OrderScan) as Hs by reflexivity.
  assert (trim (lit " ORDER999 ") ≠ []) as Hv by discriminate.
  assert (∀ o, o ∈ db_orders (demo_run to_order_screen) →
               orderId o ≠ trim (lit " ORDER999 ")) as Hno.
  { intros o Ho Hid.
    assert (db_orders (demo_run to_order_screen) = [sampleOrder]) as E
      by (vm_compute; reflexivity).
    rewrite E in Ho. apply list_elem_of_singleton in Ho. subst o. discriminate. }
  destruct (manual_order_code_lookup (P := demo) _ (lit " ORDER999 ") Hs)
    as (_ & H & _).
  destruct (H Hv Hno) as (Ha & _).
  exact (conj Hs (conj Hv (conj Hno Ha))).
Defined.



Lemma login_then_logout_witness :
  let w := demo_run [] in
  screen w = Login ∧ trim (lit " Dana ") ≠ [] ∧
  user (demo_step (ClickLogin (lit " Dana ")) w) = Some (lit "Dana") ∧
  db (demo_step ClickLogout (demo_step (ClickLogin (lit " Dana ")) w)) = db w.
Proof.
  assert (screen (demo_run []) = Login) as Hs by reflexivity.
  assert (trim (lit " Dana ") ≠ []) as Hv by discriminate.
  destruct (login_then_logout (P := demo) _ (lit " Dana ") Hs Hv)
    as ((Hu & _) & _ & (Hd & _)).
  exact (conj Hs (conj Hv (conj Hu Hd))).
Defined.

Lemma stale_detection_discarded_witness :
  let w := demo_run (to_order_screen ++ [ClickCancelOrder]) in
  subscribers w = [OnOrder] ∧ quaggaActive w = false ∧
  demo_step (Detected (lit "ORDER001")) w = w.
Proof.
  assert (quaggaActive (demo_run (to_order_screen ++ [ClickCancelOrder])) = false)
    as Hq by reflexivity.
  exact (conj eq_refl (conj Hq
    (stale_detection_discarded (P := demo) _ (lit "ORDER001") Hq))).
Defined.

Lemma scan_progress_invariant_witness :
  let w := demo_run (to_part_screen ++ [ClickManualPart (lit "PART002")]) in
  scan_inv w ∧ scan_inv (demo_step (ClickManualPart (lit "PART001")) w).
Proof.
  assert (scan_inv (demo_run (to_part_screen ++ [ClickManualPart (lit "PART002")])))
    as H by (apply (bool_decide_unpack (scan_inv _)); vm_compute; exact I).
  exact (conj H (proj1 (scan_progress_invariant (P := demo)
                          (ClickManualPart (lit "PART001")) _ H))).
Defined.

Lemma import_of_skipped_rows_witness :
  let w := demo_run [ClickLogin (lit "Dana"); ClickImport; ChooseFile] in
  pendingParses w ≠ 0 ∧
  Forall (λ row, resolve (columns ascii_lower rows_without_parts) row = None)
    rows_without_parts ∧
  db_orders w = [sampleOrder] ∧
  db_orders (demo_step (CsvComplete rows_without_parts) w) = [].
Proof.
  assert (pendingParses (demo_run [ClickLogin (lit "Dana"); ClickImport; ChooseFile]) ≠ 0)
    as Hp by discriminate.
  assert (Forall (λ row, resolve (columns ascii_lower rows_without_parts) row = None)
            rows_without_parts) as Hall
    by (repeat constructor).
  destruct (import_of_skipped_rows_empties_database (P := demo) _ _ Hp Hall)
    as (_ & _ & He & _).
  refine (conj Hp (conj Hall (conj _ He))).
  vm_compute. reflexivity.
Defined.

(** * The further properties on concrete inputs *)

Lemma resolved_two_customers :
  resolved (columns ascii_lower rows_two_customers) rows_two_customers
  = [(lit "A", lit "P1"); (lit "B", lit "P3"); (lit "A", lit "P2")].
Proof. vm_compute. reflexivity. Qed.

Lemma resolved_numbered :
  resolved (columns ascii_lower rows_numbered) rows_numbered
  = [(lit "1001", lit "P1"); (lit "7", lit "P2")].
Proof. vm_compute. reflexivity. Qed.

Lemma normalize_two_customers :
  normalize ascii_lower rows_two_customers = Some orders_two_customers.
Proof. vm_compute. reflexivity. Qed.

Lemma normalize_numbered :
  normalize ascii_lower rows_numbered = Some orders_numbered.
Proof. vm_compute. reflexivity. Qed.

Lemma import_orders_well_formed_witness :
  normalize ascii_lower rows_two_customers = Some orders_two_customers ∧
  NoDup (orderId <$> orders_two_customers).
Proof.
  exact (conj normalize_two_customers
    (proj1 (import_orders_well_formed (P := demo) _ _ normalize_two_customers))).
Defined.

Lemma import_accumulates_parts_witness :
  normalize ascii_lower rows_two_customers = Some orders_two_customers ∧
  ∀ o, o ∈ orders_two_customers →
    parts o = parts_for (columns ascii_lower rows_two_customers) (orderId o)
                rows_two_customers.
Proof.
  exact (conj normalize_two_customers
    (proj1 (import_accumulates_parts (P := demo) _ _ normalize_two_customers))).
Defined.

Lemma import_takes_fields_from_first_row_witness :
  normalize ascii_lower rows_two_customers = Some orders_two_customers ∧
  ∀ o, o ∈ orders_two_customers →
    ∃ row0, first_row (columns ascii_lower rows_two_customers) (orderId o)
              rows_two_customers = Some row0 ∧
      customer o = Some (trimmed_or_empty
        (get row0 (customerKey (columns ascii_lower rows_two_customers)))).
Proof.
  split; [exact normalize_two_customers|]. intros o Ho.
  destruct (import_takes_fields_from_first_row (P := demo) _ _
              normalize_two_customers o Ho) as (row0 & Hf & Hc & _).
  exists row0. exact (conj Hf Hc).
Defined.

Lemma import_keeps_first_seen_order_witness :
  normalize ascii_lower rows_two_customers = Some orders_two_customers ∧
  (∀ id p, (id, p) ∈ resolved (columns ascii_lower rows_two_customers)
                        rows_two_customers → array_index id = None) ∧
  orderId <$> orders_two_customers
  = first_seen (resolved (columns ascii_lower rows_two_customers)
                  rows_two_customers).*1.
Proof.
  assert (∀ id p, (id, p) ∈ resolved (columns ascii_lower rows_two_customers)
                              rows_two_customers → array_index id = None) as H.
  { intros id p Hin. rewrite resolved_two_customers in Hin.
    repeat (apply elem_of_cons in Hin as [[= -> ->]|Hin]; [reflexivity|]).
    by apply elem_of_nil in Hin. }
  exact (conj normalize_two_customers (conj H
    (import_keeps_first_seen_order (P := demo) _ _ normalize_two_customers H))).
Defined.

Lemma import_sorts_numeric_ids_witness :
  normalize ascii_lower rows_numbered = Some orders_numbered ∧
  (∀ id p, (id, p) ∈ resolved (columns ascii_lower rows_numbered) rows_numbered →
     is_Some (array_index id)) ∧
  ∃ ns, array_index ∘ orderId <$> orders_numbered = Some <$> ns ∧
        StronglySorted N.le ns.
Proof.
  assert (∀ id p, (id, p) ∈ resolved (columns ascii_lower rows_numbered)
                              rows_numbered → is_Some (array_index id)) as H.
  { intros id p Hin. rewrite resolved_numbered in Hin.
    repeat (apply elem_of_cons in Hin as [[= -> ->]|Hin]; [vm_compute; eauto|]).
    by apply elem_of_nil in Hin. }
  exact (conj normalize_numbered (conj H
    (import_sorts_numeric_ids (P := demo) _ _ normalize_numbered H))).
Defined.

Lemma import_throws_on_inherited_names_witness :
  normalize ascii_lower rows_inherited = None.
Proof.
  apply (proj2 (import_throws_on_inherited_names (P := demo) rows_inherited)).
  exists (lit "constructor"), (lit "P1"). split; [|reflexivity].
  apply (bool_decide_unpack (_ ∈ _)). vm_compute. exact I.
Defined.

Lemma import_replaces_database_witness :
  let w := demo_run (to_import_screen ++ [ChooseFile]) in
  pendingParses w ≠ 0 ∧
  normalize ascii_lower rows_two_customers = Some orders_two_customers ∧
  db_orders w = [sampleOrder] ∧
  db_orders (demo_step (CsvComplete rows_two_customers) w) = orders_two_customers.
Proof.
  assert (pendingParses (demo_run (to_import_screen ++ [ChooseFile])) ≠ 0) as Hp
    by discriminate.
  destruct (import_replaces_database (P := demo) _ _ _ Hp normalize_two_customers)
    as (H & _).
  refine (conj Hp (conj normalize_two_customers (conj _ H))).
  vm_compute. reflexivity.
Defined.

Lemma import_with_inherited_name_is_dropped_witness :
  let w := demo_run (to_import_screen ++ [ChooseFile]) in
  pendingParses w ≠ 0 ∧
  (∃ id p, (id, p) ∈ resolved (columns ascii_lower rows_inherited) rows_inherited ∧
           inherited id = true) ∧
  demo_step (CsvComplete rows_inherited) w
  = log UncaughtTypeError (set_pendingParses 0 w).
Proof.
  assert (pendingParses (demo_run (to_import_screen ++ [ChooseFile])) ≠ 0) as Hp
    by discriminate.
  assert (∃ id p, (id, p) ∈ resolved (columns ascii_lower rows_inherited)
                              rows_inherited ∧ inherited id = true) as Hi.
  { exists (lit "constructor"), (lit "P1"). split; [|reflexivity].
    apply (bool_decide_unpack (_ ∈ _)). vm_compute. exact I. }
  exact (conj Hp (conj Hi
    (import_with_inherited_name_is_dropped (P := demo) _ _ Hp Hi))).
Defined.

Lemma load_sample_replaces_database_witness :
  let w := demo_run (to_import_screen ++ [ChooseFile; CsvComplete rows_two_customers;
                                          ClickImport]) in
  screen w = Import ∧ db_orders w = orders_two_customers ∧
  db_orders (demo_step ClickLoadSample w) = [sampleOrder].
Proof.
  assert (screen (demo_run (to_import_screen ++
            [ChooseFile; CsvComplete rows_two_customers; ClickImport])) = Import)
    as Hs by reflexivity.
  destruct (load_sample_replaces_database (P := demo) _ Hs) as (H & _).
  refine (conj Hs (conj _ H)). vm_compute. reflexivity.
Defined.

Lemma only_commits_change_database_witness :
  let w := demo_run to_part_screen in
  changes_database (ClickManualPart (lit "PART001")) = false ∧
  scannedParts (demo_step (ClickManualPart (lit "PART001")) w) = [lit "PART001"] ∧
  db (demo_step (ClickManualPart (lit "PART001")) w) = db w ∧
  heap (demo_step (ClickManualPart (lit "PART001")) w) = heap w.
Proof.
  destruct (only_commits_change_database (P := demo)
              (ClickManualPart (lit "PART001")) (demo_run to_part_screen) eq_refl)
    as (Hd & Hh & _).
  refine (conj eq_refl (conj _ (conj Hd Hh))). vm_compute. reflexivity.
Defined.

Lemma only_login_logout_change_session_witness :
  let w := demo_run to_summary in
  changes_session (ClickMarkPacked (lit "T")) = false ∧
  user (demo_step (ClickMarkPacked (lit "T")) w) = user w.
Proof.
  exact (conj eq_refl (proj1 (only_login_logout_change_session (P := demo)
    (ClickMarkPacked (lit "T")) (demo_run to_summary) eq_refl))).
Defined.

Lemma orders_change_only_by_packing_witness :
  let w := demo_run to_summary in
  heap w !! 0 = Some sampleOrder ∧
  (heap (demo_step (ClickMarkPacked (lit "T")) w) !! 0 = Some sampleOrder ∨
   ∃ now, ClickMarkPacked (lit "T") = ClickMarkPacked now ∧ currentOrder w = Some 0 ∧
     heap (demo_step (ClickMarkPacked (lit "T")) w) !! 0
     = Some (packed sampleOrder now (user w))).
Proof.
  assert (heap (demo_run to_summary) !! 0 = Some sampleOrder) as H
    by (vm_compute; reflexivity).
  exact (conj H (orders_change_only_by_packing (P := demo)
    (ClickMarkPacked (lit "T")) _ 0 sampleOrder H)).
Defined.

Lemma stored_database_is_current_witness :
  ((∅ : gmap jsstring jsstring) !! dbKey = None ∨
   (∅ : gmap jsstring jsstring) !! dbKey = Some []) ∧
  stored_in_sync (P := demo)
    (run (P := demo) (to_summary ++ [ClickMarkPacked (lit "T")]) (init (P := demo) ∅)).
Proof.
  assert ((∅ : gmap jsstring jsstring) !! dbKey = None ∨
          (∅ : gmap jsstring jsstring) !! dbKey = Some []) as H
    by (left; apply lookup_empty).
  exact (conj H (stored_database_is_current (P := demo) ∅ _ H)).
Defined.

Example packed_order_survives_restart :
  status <$> db_orders (init (P := codec) (localStorage packed_session)) = [Packed] ∧
  user (init (P := codec) (localStorage packed_session)) = Some (lit "Dana") ∧
  screen (init (P := codec) (localStorage packed_session)) = Home.
Proof. vm_compute. done. Qed.

Lemma restart_restores_database_and_session_witness :
  (stored_in_sync (P := codec) packed_session ∧
   JSON_stringify (Platform := codec) (db_orders packed_session) ≠ [] ∧
   JSON_parse (Platform := codec)
     (JSON_stringify (Platform := codec) (db_orders packed_session))
   = Some (db_orders packed_session)) ∧
  db_orders (init (P := codec) (localStorage packed_session)) = db_orders packed_session.
Proof.
  assert (stored_in_sync (P := codec) packed_session) as H1
    by (vm_compute; reflexivity).
  assert (JSON_stringify (Platform := codec) (db_orders packed_session) ≠ []) as H2
    by (intros E; vm_compute in E; discriminate).
  assert (JSON_parse (Platform := codec)
            (JSON_stringify (Platform := codec) (db_orders packed_session))
          = Some (db_orders packed_session)) as H3
    by (vm_compute; reflexivity).
  exact (conj (conj H1 (conj H2 H3))
    (proj1 (restart_restores_database_and_session (P := codec) _ H1 H2 H3))).
Defined.

Lemma any_scan_order_completes_witness :
  let w := demo_run to_part_screen in
  let codes := [lit "PART003"; lit "PART001"; lit "PART002"] in
  (screen w = PartScan ∧ current w = Some sampleOrder ∧ scannedParts w = [] ∧
   parts sampleOrder ≠ [] ∧ NoDup (parts sampleOrder) ∧
   Forall (λ p, p ≠ [] ∧ trim p = p) (parts sampleOrder) ∧
   codes ≡ₚ parts sampleOrder) ∧
  screen (foldl (λ w c, handlePartDetected c w) w codes) = Summary false.
Proof.
  assert (screen (demo_run to_part_screen) = PartScan) as H1 by reflexivity.
  assert (current (demo_run to_part_screen) = Some sampleOrder) as H2
    by (vm_compute; reflexivity).
  assert (scannedParts (demo_run to_part_screen) = []) as H3 by reflexivity.
  assert (parts sampleOrder ≠ []) as H4 by discriminate.
  assert (NoDup (parts sampleOrder)) as H5
    by (apply (bool_decide_unpack (NoDup _)); vm_compute; exact I).
  assert (Forall (λ p, p ≠ [] ∧ trim p = p) (parts sampleOrder)) as H6
    by (repeat constructor; try discriminate; vm_compute; reflexivity).
  assert ([lit "PART003"; lit "PART001"; lit "PART002"] ≡ₚ parts sampleOrder) as H7
    by (apply (bool_decide_unpack (_ ≡ₚ _)); vm_compute; exact I).
  exact (conj (conj H1 (conj H2 (conj H3 (conj H4 (conj H5 (conj H6 H7))))))
    (proj1 (proj2 (any_scan_order_completes _ _ _ H1 H2 H3 H4 H5 H6 H7)))).
Defined.

Lemma unknown_order_code_never_mutates_witness :
  let w := demo_run to_order_screen in
  (∀ o, o ∈ db_orders w → orderId o ≠ lit "ORDER999") ∧
  alerts (Nat.iter 3 (handleOrderDetected (P := demo) (lit "ORDER999")) w)
  = replicate 3 (OrderNotFound (lit "ORDER999")) ++ alerts w.
Proof.
  assert (∀ o, o ∈ db_orders (demo_run to_order_screen) → orderId o ≠ lit "ORDER999")
    as H.
  { intros o Ho.
    assert (db_orders (demo_run to_order_screen) = [sampleOrder]) as E
      by (vm_compute; reflexivity).
    rewrite E in Ho. apply list_elem_of_singleton in Ho as ->. discriminate. }
  exact (conj H (proj1 (unknown_order_code_never_mutates (P := demo) _ _ 3 H))).
Defined.

Lemma part_callback_fires_once_witness :
  let w := demo_run to_part_screen in
  lit "PART001" ≠ [] ∧ quaggaActive w = true ∧
  scannedParts (onDetected (P := demo) (lit "PART001") w OnPart) = [lit "PART001"] ∧
  quaggaActive (onDetected (P := demo) (lit "PART001") w OnPart) = false.
Proof.
  assert (lit "PART001" ≠ []) as H by discriminate.
  refine (conj H (conj _ (conj _ (proj1 (part_callback_fires_once (P := demo)
    (demo_run to_part_screen) _ H)))));
    vm_compute; reflexivity.
Defined.

Lemma progress_never_exceeds_total_witness :
  updateProgress (run (P := demo) (to_part_screen ++ [ClickManualPart (lit "PART002")])
                    (init (P := demo) ∅)) = Some (1, 3) ∧ 1 ≤ 3.
Proof.
  assert (updateProgress (run (P := demo)
            (to_part_screen ++ [ClickManualPart (lit "PART002")])
            (init (P := demo) ∅)) = Some (1, 3)) as H by (vm_compute; reflexivity).
  exact (conj H (progress_never_exceeds_total (P := demo) _ _ _ _ H)).
Defined.

Lemma summary_is_always_complete_witness :
  screen (run (P := demo) to_summary (init (P := demo) ∅)) = Summary false ∧
  missingParts (run (P := demo) to_summary (init (P := demo) ∅)) = [].
Proof.
  assert (screen (run (P := demo) to_summary (init (P := demo) ∅)) = Summary false)
    as H by reflexivity.
  exact (conj H (proj1 (proj2 (summary_is_always_complete (P := demo) _ _ _ H)))).
Defined.

Lemma order_with_repeated_part_is_never_summarized_witness :
  (current (run (P := demo) to_repeated_part (init (P := demo) ∅))
   = Some order_with_repeat ∧ ¬ NoDup (parts order_with_repeat)) ∧
  ∀ d, screen (run (P := demo) to_repeated_part (init (P := demo) ∅)) ≠ Summary d.
Proof.
  assert (current (run (P := demo) to_repeated_part (init (P := demo) ∅))
          = Some order_with_repeat) as H1 by (vm_compute; reflexivity).
  assert (¬ NoDup (parts order_with_repeat)) as H2.
  { intros Hnd. apply (bool_decide_pack (NoDup _)) in Hnd. vm_compute in Hnd.
    exact Hnd. }
  exact (conj (conj H1 H2)
    (order_with_repeated_part_is_never_summarized (P := demo) _ _ _ H1 H2)).
Defined.


Example activation_deletes_old_caches :
  sw_activate ((CACHE_NAME, []) :: old_storage) = [(CACHE_NAME, [])].
Proof. vm_compute. reflexivity. Qed.

Lemma activation_keeps_only_the_current_cache_witness :
  sw_activate (sw_activate ((CACHE_NAME, []) :: old_storage))
  = sw_activate ((CACHE_NAME, []) :: old_storage).
Proof.
  exact (proj2 (activation_keeps_only_the_current_cache ((CACHE_NAME, []) :: old_storage))).
Defined.

Lemma precached_files_are_served_offline_witness :
  (∀ url, url ∈ FILES_TO_CACHE → ∃ r, network_up url = Some r ∧ ok r = true) ∧
  (sw_install network_up old_storage).2 = true ∧
  sw_fetch (λ _, None) (sw_activate (sw_install network_up old_storage).1)
    (lit "main.js") = Some (mkResponse true (lit "main.js")).
Proof.
  assert (∀ url, url ∈ FILES_TO_CACHE → ∃ r, network_up url = Some r ∧ ok r = true)
    as H by (intros url _; eexists; split; reflexivity).
  destruct (precached_files_are_served_offline network_up old_storage H) as [Hi Hf].
  refine (conj H (conj Hi (Hf (lit "main.js") (λ _, None) _))).
  apply (bool_decide_unpack (_ ∈ _)). vm_compute. exact I.
Defined.
